(** * visual-cortex-mcp: the input validators, the command executor, the
      simulator service and the tools, embedded and verified.

    The JavaScript sources are embedded shallowly:
    - strings are [string], one [ascii] per code unit; the literals of the
      program and the patterns it tests are ASCII;
    - the values that cross the tool boundary or come out of [JSON.parse] are
      the inductive [value], with [undefined] added;
    - [throw] is the [Throw] outcome of an error monad; the one side effect
      of the program, the calls of [spawnSync], is a log threaded by the
      state-and-error monad [M];
    - arrays that a claim needs as objects live in a store of references;
    - what the host decides (IEEE numbers and the coercions that depend on
      them, the library functions, the outcome of a spawned process) is a
      field of the class [Host].

    The file has three parts: the program, the vocabulary of the properties,
    and the properties with their proofs. *)

From Stdlib Require Import ZArith List Ascii String Lia DecimalString.
From Stdlib Require Import Permutation Sorted.
From stdpp Require Import base gmap strings list.

Open Scope string_scope.
Open Scope list_scope.

(* ================================================================== *)
(** ** Text *)

Module Text.

Definition chars (s : string) : list ascii := list_ascii_of_string s.

Definition code (c : ascii) : nat := nat_of_ascii c.

(** [s.length] *)
Definition len (s : string) : Z := Z.of_nat (String.length s).

(** [s.startsWith(p)] on code units. *)
Fixpoint starts_with (p s : list ascii) : bool :=
  match p, s with
  | [], _ => true
  | a :: p', b :: s' => Ascii.eqb a b && starts_with p' s'
  | _ :: _, [] => false
  end.

(** [s.includes(p)]. *)
Fixpoint includes_chars (p s : list ascii) : bool :=
  starts_with p s ||
  match s with
  | [] => false
  | _ :: s' => includes_chars p s'
  end.

Definition includes (s p : string) : bool := includes_chars (chars p) (chars s).

(** Decimal rendering of an integer, as [String(n)] prints an integral
    number. *)
Definition decimal (z : Z) : string := NilEmpty.string_of_int (Z.to_int z).

Definition decimal_nat (n : nat) : string := decimal (Z.of_nat n).

(** [c.toUpperCase()] on the ASCII letters; every string the program
    upper-cases has passed the UDID pattern first, so it holds hexadecimal
    digits and hyphens only. *)
Definition upper (c : ascii) : ascii :=
  if Nat.leb (code "a") (code c) && Nat.leb (code c) (code "z")
  then ascii_of_nat (code c - 32)
  else c.

Definition toUpperCase (s : string) : string :=
  string_of_list_ascii (map upper (chars s)).

(** [s.substring(0, n)]. *)
Definition substring0 (n : nat) (s : string) : string := String.substring 0 n s.

End Text.

(* ================================================================== *)
(** ** Regular expressions

    The four patterns of the program, each read off its literal.  A character
    class is the list of its items; a fixed-width pattern is a list of
    pieces. *)

Module Regex.
Import Text.

Inductive class_item :=
| One (c : ascii)
| Range (lo hi : ascii).

Definition item_matches (c : ascii) (it : class_item) : bool :=
  match it with
  | One d => Ascii.eqb c d
  | Range lo hi => Nat.leb (code lo) (code c) && Nat.leb (code c) (code hi)
  end.

Definition in_class (cls : list class_item) (c : ascii) : bool :=
  existsb (item_matches c) cls.

(** Under the [i] flag both sides are canonicalised to upper case; the
    classes below hold upper-case letters and digits only. *)
Definition in_class_i (cls : list class_item) (c : ascii) : bool :=
  in_class cls (upper c).

(** [/[;&|`$\\<>{}[\]()#*?~!]/] *)
Definition SHELL_METACHARACTERS_class : list class_item :=
  [One ";"; One "&"; One "|"; One "`"; One "$"; One "\"; One "<"; One ">";
   One "{"; One "}"; One "["; One "]"; One "("; One ")"; One "#"; One "*";
   One "?"; One "~"; One "!"]%char.

(** An unanchored one-character pattern: some code unit is in the class. *)
Definition SHELL_METACHARACTERS_test (s : string) : bool :=
  existsb (in_class SHELL_METACHARACTERS_class) (chars s).

(** [/^[a-zA-Z0-9_\-.:]+$/] *)
Definition SAFE_ID_class : list class_item :=
  [Range "a" "z"; Range "A" "Z"; Range "0" "9"; One "_"; One "-"; One ".";
   One ":"]%char.

Definition SAFE_ID_PATTERN_test (s : string) : bool :=
  match chars s with
  | [] => false
  | cs => forallb (in_class SAFE_ID_class) cs
  end.

(** A piece [cls{n}]: exactly [n] code units of the class. *)
Record piece := Exactly { width : nat; cls : list class_item }.

Fixpoint take_class (inc : ascii -> bool) (n : nat) (s : list ascii)
  : option (list ascii * list ascii) :=
  match n with
  | O => Some ([], s)
  | S n' =>
      match s with
      | c :: s' =>
          if inc c
          then match take_class inc n' s' with
               | Some (m, rest) => Some (c :: m, rest)
               | None => None
               end
          else None
      | [] => None
      end
  end.

(** Match the pieces at the head of [s]: the matched text and the rest. *)
Fixpoint match_pieces (ci : bool) (ps : list piece) (s : list ascii)
  : option (list ascii * list ascii) :=
  match ps with
  | [] => Some ([], s)
  | p :: ps' =>
      match take_class (if ci then in_class_i (cls p) else in_class (cls p))
                       (width p) s with
      | Some (m, rest) =>
          match match_pieces ci ps' rest with
          | Some (m', rest') => Some (m ++ m', rest')
          | None => None
          end
      | None => None
      end
  end.

(** [^ps$]: the pieces cover the whole input. *)
Definition test_anchored (ci : bool) (ps : list piece) (s : string) : bool :=
  match match_pieces ci ps (chars s) with
  | Some (_, []) => true
  | _ => false
  end.

(** Unanchored search: the leftmost position where the pieces match. *)
Fixpoint search (ci : bool) (ps : list piece) (s : list ascii)
  : option (list ascii) :=
  match match_pieces ci ps s with
  | Some (m, _) => Some m
  | None =>
      match s with
      | [] => None
      | _ :: s' => search ci ps s'
      end
  end.

Definition HEX : list class_item := [Range "0" "9"; Range "A" "F"]%char.
Definition HYPHEN : list class_item := [One "-"]%char.

(** [[0-9A-F]{8}-[0-9A-F]{4}-[0-9A-F]{4}-[0-9A-F]{4}-[0-9A-F]{12}] *)
Definition UDID_pieces : list piece :=
  [Exactly 8 HEX; Exactly 1 HYPHEN; Exactly 4 HEX; Exactly 1 HYPHEN;
   Exactly 4 HEX; Exactly 1 HYPHEN; Exactly 4 HEX; Exactly 1 HYPHEN;
   Exactly 12 HEX].

(** [udidPattern.test(udid)], the anchored pattern with the [i] flag. *)
Definition udidPattern_test (s : string) : bool :=
  test_anchored true UDID_pieces s.

(** [output.match(/(...)/)] of [getBootedUDID]: no flag, no anchor; group
    1 is the whole match. *)
Definition match_udid (s : string) : option string :=
  option_map string_of_list_ascii (search false UDID_pieces (chars s)).

Definition is_digit (c : ascii) : bool := in_class [Range "0" "9"]%char c.

(** The longest run of digits at the head of [s] and what follows it. *)
Fixpoint span_digits (s : list ascii) : list ascii * list ascii :=
  match s with
  | c :: s' =>
      if is_digit c
      then let (d, rest) := span_digits s' in (c :: d, rest)
      else ([], s)
  | [] => ([], [])
  end.

(** [\d+] is greedy; it is followed by a hyphen or by the end of the
    pattern, so the longest run is the only run that can match. *)
Definition digits_plus (s : list ascii) : option (list ascii * list ascii) :=
  match span_digits s with
  | ([], _) => None
  | (d, rest) => Some (d, rest)
  end.

(** [/iOS-(\d+)-(\d+)/] at the head of [s]: the two groups. *)
Definition match_iOS_here (s : list ascii) : option (list ascii * list ascii) :=
  if starts_with (chars "iOS-") s then
    match digits_plus (skipn 4 s) with
    | Some (major, rest) =>
        match rest with
        | c :: rest' =>
            if Ascii.eqb c "-" then
              match digits_plus rest' with
              | Some (minor, _) => Some (major, minor)
              | None => None
              end
            else None
        | [] => None
        end
    | None => None
    end
  else None.

(** [runtime.match(/iOS-(\d+)-(\d+)/)]: the groups of the leftmost match. *)
Fixpoint match_iOS_chars (s : list ascii) : option (list ascii * list ascii) :=
  match match_iOS_here s with
  | Some g => Some g
  | None =>
      match s with
      | [] => None
      | _ :: s' => match_iOS_chars s'
      end
  end.

Definition match_iOS (s : string) : option (string * string) :=
  match match_iOS_chars (chars s) with
  | Some (major, minor) =>
      Some (string_of_list_ascii major, string_of_list_ascii minor)
  | None => None
  end.

End Regex.

(* ================================================================== *)
(** ** Exceptions and JavaScript values *)

(** A thrown value.  Everything the program throws or catches is an error
    object; only its [message] is ever read. *)
Inductive exn :=
| Error (msg : string)        (* [new Error(msg)] *)
| TypeError (msg : string)    (* raised by the language itself *)
| SyntaxError (msg : string)  (* raised by [JSON.parse] *)
| SystemError (msg : string). (* [result.error] of [spawnSync] *)

Definition message (e : exn) : string :=
  match e with
  | Error m | TypeError m | SyntaxError m | SystemError m => m
  end.

Inductive Outcome (A : Type) :=
| Ok (a : A)
| Throw (e : exn).
Arguments Ok {A} a.
Arguments Throw {A} e.

Definition obind {A B} (o : Outcome A) (k : A -> Outcome B) : Outcome B :=
  match o with
  | Ok a => k a
  | Throw e => Throw e
  end.

Declare Scope outcome_scope.
Delimit Scope outcome_scope with outcome.
Notation "'let?' x ':=' o 'in' k" := (obind o (fun x => k))
  (at level 10, x name, o at level 100, k at level 200) : outcome_scope.

(** Values: what [JSON.parse] produces, plus [undefined].  The fields of an
    object are its own properties in enumeration order. *)
#[warnings="-register-all"]
Inductive value (number : Type) : Type :=
| Undefined
| Null
| Bool (b : bool)
| Num (n : number)
| Str (s : string)
| Arr (items : list (value number))
| Obj (fields : list (string * value number)).
Arguments Undefined {number}.
Arguments Null {number}.
Arguments Bool {number} b.
Arguments Num {number} n.
Arguments Str {number} s.
Arguments Arr {number} items.
Arguments Obj {number} fields.

(** What [ALLOWED_COMMANDS[name]] evaluates to: the path stored under an own
    key, or whatever [Object.prototype] holds under an inherited one. *)
Inductive property :=
| Own (path : string)
| Inherited (name : string).

(** The options object handed to [spawnSync]; [encoding = None] is
    [encoding: null], which makes [stdout] a buffer. *)
Record SpawnOptions := {
  encoding : option string;
  maxBuffer : option Z;
  shell : bool
}.

(** One call of [spawnSync(file, args, options)]. *)
Record Call := {
  file : property;
  argv : list string;
  options : SpawnOptions
}.

(** The object [spawnSync] returns; [status = None] is a [null] status. *)
Record SpawnResult := {
  error : option exn;
  status : option Z;
  stdout : string;
  stderr : string
}.

(** The host: numbers (IEEE doubles, kept abstract), the coercions of the
    language that depend on them, the standard library functions the program
    calls, and the outcome of spawning a process, which may depend on every
    call made before. *)
Class Host := {
  number : Type;
  NaN : number;
  lit : Z -> number;                          (* an integer literal *)
  Number_isFinite : number -> bool;
  lt : number -> number -> bool;              (* [a < b] *)
  number_truthy : number -> bool;
  number_toString : number -> string;         (* [String(n)] *)
  StringToNumber : string -> number;          (* [Number(s)] *)
  ObjectToNumber : value number -> Outcome number;  (* [Number(o)], o an array or object *)
  ObjectToString : value number -> Outcome string;  (* [String(o)], o an array or object *)
  JSON_parse : string -> option (value number);
  JSON_stringify : value number -> string;    (* [JSON.stringify(v, null, 2)] *)
  base64 : string -> string;                  (* [buffer.toString("base64")] *)
  localeCompare : string -> string -> Z;
  spawnSync_result : list Call -> Call -> SpawnResult
}.

Section Language.
Context {H : Host}.

Definition val : Type := value number.

Definition truthy (v : val) : bool :=
  match v with
  | Undefined | Null => false
  | Bool b => b
  | Num n => number_truthy n
  | Str s => negb (String.eqb s "")
  | Arr _ | Obj _ => true
  end.

(** [Number(v)] *)
Definition ToNumber (v : val) : Outcome number :=
  match v with
  | Undefined => Ok NaN
  | Null => Ok (lit 0)
  | Bool b => Ok (lit (if b then 1 else 0))
  | Num n => Ok n
  | Str s => Ok (StringToNumber s)
  | Arr _ | Obj _ => ObjectToNumber v
  end.

(** [String(v)], also the coercion of a template literal. *)
Definition ToString (v : val) : Outcome string :=
  match v with
  | Undefined => Ok "undefined"
  | Null => Ok "null"
  | Bool b => Ok (if b then "true" else "false")
  | Num n => Ok (number_toString n)
  | Str s => Ok s
  | Arr _ | Obj _ => ObjectToString v
  end.

Definition is_undefined (v : val) : bool :=
  match v with Undefined => true | _ => false end.

(** [v === "lit"] *)
Definition strict_eq_str (v : val) (s : string) : bool :=
  match v with Str t => String.eqb t s | _ => false end.

Fixpoint assoc (k : string) (fs : list (string * val)) : val :=
  match fs with
  | [] => Undefined
  | (k', v) :: fs' => if String.eqb k k' then v else assoc k fs'
  end.

(** [v.k] for the property names the program reads ([devices], [name],
    [AXLabel], [children], ...): none of them is a built-in property of a
    string, number, boolean or array, nor of [Object.prototype]. *)
Definition get (v : val) (k : string) : Outcome val :=
  match v with
  | Undefined => Throw (TypeError ("Cannot read properties of undefined (reading '" +:+ k +:+ "')"))
  | Null => Throw (TypeError ("Cannot read properties of null (reading '" +:+ k +:+ "')"))
  | Obj fs => Ok (assoc k fs)
  | _ => Ok Undefined
  end.

(** [v?.k] *)
Definition get_opt (v : val) (k : string) : Outcome val :=
  match v with
  | Undefined | Null => Ok Undefined
  | _ => get v k
  end.

Definition Array_isArray (v : val) : bool :=
  match v with Arr _ => true | _ => false end.

Definition indexed {A} (l : list A) : list (string * A) :=
  combine (map Text.decimal_nat (seq 0 (length l))) l.

Definition char_values (s : string) : list val :=
  map (fun c => Str (String c "")) (Text.chars s).

(** [Object.entries(v)] for a value that is not [null] or [undefined]. *)
Definition Object_entries (v : val) : list (string * val) :=
  match v with
  | Obj fs => fs
  | Arr items => indexed items
  | Str s => indexed (char_values s)
  | _ => []
  end.

(** The elements [for (const x of v)] visits. *)
Definition iterate (v : val) : Outcome (list val) :=
  match v with
  | Arr items => Ok items
  | Str s => Ok (char_values s)
  | _ => Throw (TypeError "object is not iterable")
  end.

End Language.

(* ================================================================== *)
(** ** utils/InputValidator.js *)

Section InputValidator.
Context {H : Host}.
Import Regex.
Local Open Scope outcome_scope.

Definition validateAccessibilityId (id : val) : Outcome string :=
  match id with
  | Str s =>
      if Z.eqb (Text.len s) 0 then
        Throw (Error "Accessibility ID cannot be empty")
      else if Z.ltb 256 (Text.len s) then
        Throw (Error "Accessibility ID is too long (max 256 characters)")
      else if negb (SAFE_ID_PATTERN_test s) then
        Throw (Error "Accessibility ID contains invalid characters. Only alphanumeric, hyphens, underscores, dots, and colons are allowed.")
      else Ok s
  | _ => Throw (Error "Accessibility ID must be a string")
  end.

Definition validateAccessibilityLabel (label : val) : Outcome string :=
  match label with
  | Str s =>
      if Z.eqb (Text.len s) 0 then
        Throw (Error "Accessibility label cannot be empty")
      else if Z.ltb 512 (Text.len s) then
        Throw (Error "Accessibility label is too long (max 512 characters)")
      else if SHELL_METACHARACTERS_test s then
        Throw (Error "Accessibility label contains potentially unsafe characters")
      else Ok s
  | _ => Throw (Error "Accessibility label must be a string")
  end.

Definition validateTypeText (text : val) : Outcome string :=
  match text with
  | Str s =>
      if Z.eqb (Text.len s) 0 then
        Throw (Error "Text cannot be empty")
      else if Z.ltb 10000 (Text.len s) then
        Throw (Error "Text is too long (max 10000 characters)")
      else if SHELL_METACHARACTERS_test s then
        Throw (Error "Text contains potentially unsafe shell characters. Use only printable characters.")
      else Ok s
  | _ => Throw (Error "Text must be a string")
  end.

Definition validateCoordinate (v : val) (name : string) (min max : number)
  : Outcome number :=
  let? num := ToNumber v in
  if negb (Number_isFinite num) then
    Throw (Error (name +:+ " must be a valid number"))
  else if lt num min || lt max num then
    Throw (Error (name +:+ " must be between " +:+ number_toString min
                       +:+ " and " +:+ number_toString max))
  else Ok num.

Definition validateDuration (v : val) : Outcome number :=
  let? num := ToNumber v in
  if negb (Number_isFinite num) then
    Throw (Error "Duration must be a valid number")
  else if lt num (lit 0) || lt (lit 60) num then
    Throw (Error "Duration must be between 0 and 60 seconds")
  else Ok num.

Definition validateUDID (udid : val) : Outcome string :=
  match udid with
  | Str s =>
      if negb (udidPattern_test s) then Throw (Error "Invalid UDID format")
      else Ok (Text.toUpperCase s)
  | _ => Throw (Error "UDID must be a string")
  end.

End InputValidator.

(* ================================================================== *)
(** ** utils/DeviceFormatter.js *)

Section DeviceFormatter.
Context {H : Host}.
Local Open Scope outcome_scope.

(** The object literal [parseDevices] pushes. *)
Record Device := {
  name : val;
  udid : val;
  state : val;
  runtime : string;
  isAvailable : val;
  deviceType : val
}.

Definition extractIOSVersion (runtime : string) : string :=
  match Regex.match_iOS runtime with
  | Some (major, minor) => "iOS " +:+ major +:+ "." +:+ minor
  | None => runtime
  end.

(** The body of the inner loop of [parseDevices] for one [device]. *)
Definition parse_device (availableOnly : val) (runtime : string) (device : val)
    (devices : list Device) : Outcome (list Device) :=
  let? skip :=
    (if truthy availableOnly
     then (let? a := get device "isAvailable" in Ok (negb (truthy a)))
     else Ok false) in
  if skip : bool then Ok devices
  else
    let? n := get device "name" in
    let? u := get device "udid" in
    let? s := get device "state" in
    let? a := get device "isAvailable" in
    let? t := get device "deviceTypeIdentifier" in
    Ok (devices ++ [{| name := n; udid := u; state := s;
                       runtime := extractIOSVersion runtime;
                       isAvailable := a; deviceType := t |}]).

(** A [for ... of] loop whose body may throw, over an accumulator. *)
Fixpoint for_of {A B} (body : A -> B -> Outcome B) (l : list A) (acc : B)
  : Outcome B :=
  match l with
  | [] => Ok acc
  | x :: l' => let? acc' := body x acc in for_of body l' acc'
  end.

Definition parseDevices (devicesData : val) (availableOnly : val)
  : Outcome (list Device) :=
  let? d := get devicesData "devices" in
  let table := if truthy d then d else Obj [] in
  for_of
    (fun (entry : string * val) devices =>
       let (runtime, deviceList) := entry in
       let? items := iterate deviceList in
       for_of (parse_device availableOnly runtime) items devices)
    (Object_entries table) [].

(** [a.name.localeCompare(b.name)]: the receiver must be a string, the
    argument is converted to one. *)
Definition localeCompare_call (a b : val) : Outcome Z :=
  match a with
  | Str s => let? t := ToString b in Ok (localeCompare s t)
  | Undefined | Null =>
      Throw (TypeError "Cannot read properties of undefined (reading 'localeCompare')")
  | _ => Throw (TypeError "a.name.localeCompare is not a function")
  end.

Definition is_booted (d : Device) : bool := strict_eq_str (state d) "Booted".

(** The comparator handed to [sort]. *)
Definition compareDevices (a b : Device) : Outcome Z :=
  if is_booted a && negb (is_booted b) then Ok (-1)%Z
  else if negb (is_booted a) && is_booted b then Ok 1%Z
  else localeCompare_call (name a) (name b).

(** [Array.prototype.sort(cmp)] on the contents of an array.  The language
    fixes a stable sort and leaves the algorithm open; with a consistent
    comparator every stable algorithm computes the same array, and this is
    the insertion one.  [x] stood before every element of [l]. *)
Fixpoint sort_insert {A} (cmp : A -> A -> Outcome Z) (x : A) (l : list A)
  : Outcome (list A) :=
  match l with
  | [] => Ok [x]
  | y :: l' =>
      let? c := cmp x y in
      if (c <=? 0)%Z then Ok (x :: y :: l')
      else let? r := sort_insert cmp x l' in Ok (y :: r)
  end.

Fixpoint Array_sort {A} (cmp : A -> A -> Outcome Z) (l : list A)
  : Outcome (list A) :=
  match l with
  | [] => Ok []
  | x :: l' => let? r := Array_sort cmp l' in sort_insert cmp x r
  end.

(** The array [sortDevices] returns, as a function of the contents of its
    argument. *)
Definition sortDevices (devices : list Device) : Outcome (list Device) :=
  Array_sort compareDevices devices.

(** *** The same function on references

    Arrays are objects: [devices] is a reference into a store of arrays,
    [[...devices]] allocates a copy, [sort] rearranges the array it is
    called on and returns that same reference. *)

Local Abbreviation ref := nat (only parsing).
Local Abbreviation store := (gmap nat (list Device)) (only parsing).

Definition alloc (h : store) (l : list Device) : ref * store :=
  let r := fresh (dom h) in (r, <[r := l]> h).

(** [[...a]] *)
Definition spread (h : store) (a : ref) : Outcome (ref * store) :=
  match h !! a with
  | Some l => Ok (alloc h l)
  | None => Throw (TypeError "devices is not iterable")
  end.

(** [a.sort(cmp)]: on a throw the array is left as the comparator found
    it. *)
Definition sort_in_place (h : store) (a : ref) : Outcome ref * store :=
  match h !! a with
  | Some l =>
      match Array_sort compareDevices l with
      | Ok l' => (Ok a, <[a := l']> h)
      | Throw e => (Throw e, h)
      end
  | None => (Throw (TypeError "not an array"), h)
  end.

Definition sortDevices_ref (h : store) (devices : ref) : Outcome ref * store :=
  match spread h devices with
  | Ok (copy, h') => sort_in_place h' copy
  | Throw e => (Throw e, h)
  end.

End DeviceFormatter.

(** A reference to an array, and the store of the arrays of devices. *)
Abbreviation ref := nat (only parsing).
Abbreviation store := (gmap nat (list Device)) (only parsing).

(* ================================================================== *)
(** ** The effect monad

    A computation reads the log of the [spawnSync] calls made so far, may
    extend it, and returns or throws. *)

Definition World : Type := list Call.

Definition M (A : Type) : Type := World -> Outcome A * World.

Definition ret {A} (a : A) : M A := fun w => (Ok a, w).

Definition throw {A} (e : exn) : M A := fun w => (Throw e, w).

Definition bind {A B} (m : M A) (k : A -> M B) : M B :=
  fun w =>
    match m w with
    | (Ok a, w') => k a w'
    | (Throw e, w') => (Throw e, w')
    end.

(** [try { m } catch (error) { handler(error) }] *)
Definition try_catch {A} (m : M A) (handler : exn -> M A) : M A :=
  fun w =>
    match m w with
    | (Ok a, w') => (Ok a, w')
    | (Throw e, w') => handler e w'
    end.

(** A pure step that may throw. *)
Definition lift {A} (o : Outcome A) : M A := fun w => (o, w).

Declare Scope effect_scope.
Delimit Scope effect_scope with effect.
Notation "'let!' x ':=' m 'in' k" := (bind m (fun x => k))
  (at level 10, x name, m at level 100, k at level 200) : effect_scope.

(* ================================================================== *)
(** ** services/CommandExecutor.js *)

Section CommandExecutor.
Context {H : Host}.
Local Open Scope effect_scope.

(** [spawnSync(file, args, options)]: the call is logged, the host
    answers. *)
Definition spawnSync (f : property) (args : list string) (o : SpawnOptions)
  : M SpawnResult :=
  fun w =>
    let c := {| file := f; argv := args; options := o |} in
    (Ok (spawnSync_result w c), w ++ [c]).

(** The object literal [ALLOWED_COMMANDS]: its own properties. *)
Definition ALLOWED_COMMANDS : gmap string string :=
  <["axe" := "/opt/homebrew/bin/axe"]> (<["xcrun" := "/usr/bin/xcrun"]> ∅).

(** The properties an object literal inherits from [Object.prototype]. *)
Definition Object_prototype : list string :=
  ["constructor"; "__defineGetter__"; "__defineSetter__"; "hasOwnProperty";
   "__lookupGetter__"; "__lookupSetter__"; "isPrototypeOf";
   "propertyIsEnumerable"; "toString"; "valueOf"; "__proto__";
   "toLocaleString"].

(** [name in ALLOWED_COMMANDS]: own or inherited. *)
Definition in_ALLOWED_COMMANDS (name : string) : bool :=
  match ALLOWED_COMMANDS !! name with
  | Some _ => true
  | None => existsb (String.eqb name) Object_prototype
  end.

(** [ALLOWED_COMMANDS[name]] for a name that passed the [in] test. *)
Definition ALLOWED_COMMANDS_get (name : string) : property :=
  match ALLOWED_COMMANDS !! name with
  | Some path => Own path
  | None => Inherited name
  end.

(** [command[0]] as a property key and inside the template literal: an
    empty array yields [undefined]. *)
Definition commandName_of (command : list string) : string :=
  match command with
  | c :: _ => c
  | [] => "undefined"
  end.

(** The caller's [options]; an absent field is [None]. *)
Record ExecOptions := {
  with_encoding : option (option string);
  with_maxBuffer : option Z;
  with_shell : option bool
}.

Definition no_options : ExecOptions :=
  {| with_encoding := None; with_maxBuffer := None; with_shell := None |}.

Definition defaultOptions : SpawnOptions :=
  {| encoding := Some "utf8"; maxBuffer := Some (10 * 1024 * 1024)%Z;
     shell := false |}.

(** [{ ...defaultOptions, ...options }] *)
Definition merge_options (d : SpawnOptions) (o : ExecOptions) : SpawnOptions :=
  {| encoding := default (encoding d) (with_encoding o);
     maxBuffer := match with_maxBuffer o with
                  | Some b => Some b
                  | None => maxBuffer d
                  end;
     shell := default (shell d) (with_shell o) |}.

Definition status_text (s : option Z) : string :=
  match s with
  | Some z => Text.decimal z
  | None => "null"
  end.

(** [result.stderr ? result.stderr.toString() : `Command failed ...`]:
    with [encoding: null] the captured error output is a buffer, and a
    buffer is truthy even when empty. *)
Definition errorMsg (o : SpawnOptions) (result : SpawnResult) : string :=
  let stderr_truthy :=
    match encoding o with
    | None => true
    | Some _ => negb (String.eqb (stderr result) "")
    end in
  if stderr_truthy then stderr result
  else "Command failed with status " +:+ status_text (status result).

(** The two checks both methods run on what [spawnSync] returned. *)
Definition check_result (o : SpawnOptions) (result : SpawnResult)
  : M SpawnResult :=
  match error result with
  | Some e => throw e
  | None =>
      match status result with
      | Some 0%Z => ret result
      | _ => throw (Error (errorMsg o result))
      end
  end.

Definition execute (command : list string) (o : ExecOptions) : M SpawnResult :=
  let commandName := commandName_of command in
  if negb (in_ALLOWED_COMMANDS commandName) then
    throw (Error ("Command not allowed: " +:+ commandName))
  else
    let fullPath := ALLOWED_COMMANDS_get commandName in
    let spawn_options := merge_options defaultOptions o in
    let! result := spawnSync fullPath (tl command) spawn_options in
    check_result spawn_options result.

Definition executeSafeCommand (command : string) (args : list string) : M string :=
  if negb (in_ALLOWED_COMMANDS command) then
    throw (Error ("Command not allowed: " +:+ command))
  else
    let fullPath := ALLOWED_COMMANDS_get command in
    let spawn_options :=
      {| encoding := Some "utf8"; maxBuffer := None; shell := false |} in
    let! result := spawnSync fullPath args spawn_options in
    let! result := check_result spawn_options result in
    ret (stdout result).

End CommandExecutor.

(* ================================================================== *)
(** ** services/SimulatorService.js *)

Section SimulatorService.
Context {H : Host}.
Local Open Scope effect_scope.

Definition utf8 : ExecOptions :=
  {| with_encoding := Some (Some "utf8"); with_maxBuffer := None;
     with_shell := None |}.

Definition probe_args : list string := ["simctl"; "list"; "devices"; "booted"].

Definition isSimulatorBooted : M bool :=
  try_catch
    (let! devices := executeSafeCommand "xcrun" probe_args in
     ret (Text.includes devices "Booted"))
    (fun _ => ret false).

Definition JSON_parse_or_throw (s : string) : M val :=
  match JSON_parse s with
  | Some v => ret v
  | None => throw (SyntaxError "Unexpected token in JSON")
  end.

Definition getDevices : M val :=
  let! result := execute ["xcrun"; "simctl"; "list"; "devices"; "--json"] no_options in
  JSON_parse_or_throw (stdout result).

Definition takeScreenshot : M string :=
  let! result :=
    execute ["xcrun"; "simctl"; "io"; "booted"; "screenshot"; "-"]
            {| with_encoding := Some None;
               with_maxBuffer := Some (10 * 1024 * 1024)%Z;
               with_shell := None |} in
  ret (stdout result).

(** [null] is [None]. *)
Definition getBootedUDID : M (option string) :=
  try_catch
    (let! output := executeSafeCommand "xcrun" probe_args in
     ret (Regex.match_udid output))
    (fun _ => ret None).

(** The first lines of every operation on the booted device: a [null] or
    empty identifier is refused. *)
Definition booted_udid_or_throw : M string :=
  let! udid := getBootedUDID in
  match udid with
  | Some u => if String.eqb u "" then throw (Error "No simulator is currently booted")
              else ret u
  | None => throw (Error "No simulator is currently booted")
  end.

(** [result.stdout || fallback] *)
Definition stdout_or (result : SpawnResult) (fallback : string) : string :=
  if String.eqb (stdout result) "" then fallback else stdout result.

Record TapOptions := { x : val; y : val; id : val; label : val }.

(** The [if / else if] chain of [tap] that completes [args]. *)
Definition tap_args (o : TapOptions) (args : list string) : Outcome (list string) :=
  if negb (is_undefined (x o)) && negb (is_undefined (y o)) then
    (let? vx := validateCoordinate (x o) "x" (lit 0) (lit 5000) in
     let? vy := validateCoordinate (y o) "y" (lit 0) (lit 5000) in
     Ok (args ++ ["-x"; number_toString vx; "-y"; number_toString vy]))%outcome
  else if truthy (id o) then
    (let? validatedId := validateAccessibilityId (id o) in
     Ok (args ++ ["--id"; validatedId]))%outcome
  else if truthy (label o) then
    (let? validatedLabel := validateAccessibilityLabel (label o) in
     Ok (args ++ ["--label"; validatedLabel]))%outcome
  else
    Throw (Error "Must provide either coordinates (x, y), accessibility id, or label").

Definition tap (o : TapOptions) : M string :=
  let! udid := booted_udid_or_throw in
  let! validatedUdid := lift (validateUDID (Str udid)) in
  let! args := lift (tap_args o ["axe"; "tap"; "--udid"; validatedUdid]) in
  let! result := execute args utf8 in
  ret (stdout_or result "Tap completed").

Record SwipeOptions := {
  startX : val; startY : val; endX : val; endY : val; duration : val
}.

(** The optional [--duration] flag of [swipe] and [gesture]. *)
Definition push_duration (d : val) (args : list string) : Outcome (list string) :=
  if negb (is_undefined d) then
    (let? v := validateDuration d in
     Ok (args ++ ["--duration"; number_toString v]))%outcome
  else Ok args.

Definition swipe (o : SwipeOptions) : M string :=
  let! udid := booted_udid_or_throw in
  let! validatedUdid := lift (validateUDID (Str udid)) in
  let! sx := lift (validateCoordinate (startX o) "startX" (lit 0) (lit 5000)) in
  let! sy := lift (validateCoordinate (startY o) "startY" (lit 0) (lit 5000)) in
  let! ex := lift (validateCoordinate (endX o) "endX" (lit 0) (lit 5000)) in
  let! ey := lift (validateCoordinate (endY o) "endY" (lit 0) (lit 5000)) in
  let args :=
    ["axe"; "swipe";
     "--start-x"; number_toString sx; "--start-y"; number_toString sy;
     "--end-x"; number_toString ex; "--end-y"; number_toString ey;
     "--udid"; validatedUdid] in
  let! args := lift (push_duration (duration o) args) in
  let! result := execute args utf8 in
  ret (stdout_or result "Swipe completed").

Definition validPresets : list string :=
  ["scroll-up"; "scroll-down"; "scroll-left"; "scroll-right";
   "swipe-from-left-edge"; "swipe-from-right-edge"; "swipe-from-top-edge";
   "swipe-from-bottom-edge"].

(** [validPresets.includes(preset)]; the string it found, if any. *)
Definition validPresets_includes (preset : val) : option string :=
  match preset with
  | Str s => if existsb (String.eqb s) validPresets then Some s else None
  | _ => None
  end.

(** [gesture(preset, options)]; [d] is [options.duration]. *)
Definition gesture (preset : val) (d : val) : M string :=
  let! udid := booted_udid_or_throw in
  match validPresets_includes preset with
  | None =>
      throw (Error ("Invalid gesture preset. Valid options: "
                      +:+ String.concat ", " validPresets))
  | Some p =>
      let! validatedUdid := lift (validateUDID (Str udid)) in
      let! args := lift (push_duration d ["axe"; "gesture"; p; "--udid"; validatedUdid]) in
      let! result := execute args utf8 in
      ret (stdout_or result ("Gesture " +:+ p +:+ " completed"))
  end.

Definition typeText (text : val) : M string :=
  let! udid := booted_udid_or_throw in
  let! validatedText := lift (validateTypeText text) in
  let! validatedUdid := lift (validateUDID (Str udid)) in
  let! result := execute ["axe"; "type"; validatedText; "--udid"; validatedUdid] utf8 in
  ret (stdout_or result "Text typed successfully").

Definition describeUI : M val :=
  let! udid := booted_udid_or_throw in
  let! validatedUdid := lift (validateUDID (Str udid)) in
  let! result := execute ["axe"; "describe-ui"; "--udid"; validatedUdid] utf8 in
  JSON_parse_or_throw (stdout result).

End SimulatorService.

(** The call of [spawnSync] behind the probe for a booted device,
    [xcrun simctl list devices booted]. *)
Definition probe_call : Call :=
  {| file := Own "/usr/bin/xcrun"; argv := probe_args;
     options := {| encoding := Some "utf8"; maxBuffer := None; shell := false |} |}.

(** The call of [spawnSync] behind [execute(["axe", ...args], { encoding:
    "utf8" })]. *)
Definition axe_call (args : list string) : Call :=
  {| file := Own "/opt/homebrew/bin/axe"; argv := args;
     options := {| encoding := Some "utf8";
                   maxBuffer := Some (10 * 1024 * 1024)%Z; shell := false |} |}.

(* ================================================================== *)
(** ** tools/BaseTool.js and the six tools *)

(** One part of [content]. *)
Inductive ContentPart :=
| TextPart (text : string)
| ImagePart (data mimeType : string).

(** What [execute] resolves to; an absent [isError] is [None]. *)
Record ToolResponse := {
  content : list ContentPart;
  isError : option bool
}.

Definition createErrorResponse (error : exn) (context : string) : ToolResponse :=
  {| content := [TextPart (context +:+ ": " +:+ message error)];
     isError := Some true |}.

Definition createTextResponse (text : string) : ToolResponse :=
  {| content := [TextPart text]; isError := None |}.

Definition createImageResponse (base64Image mimeType text : string) : ToolResponse :=
  {| content :=
       [ImagePart base64Image mimeType]
         ++ (if String.eqb text "" then [] else [TextPart text]);
     isError := None |}.

Section DescribeUI.
Context {H : Host}.

(** The object literal [extractElements] builds for a node. *)
Record Element := {
  el_type : val;
  el_label : val;
  el_id : val;
  el_value : val;
  el_enabled : val;
  el_frame : val
}.

(** [a || b] on values. *)
Definition or_else (a b : val) : val := if truthy a then a else b.

Definition element_of (fs : list (string * val)) : Element :=
  {| el_type := or_else (assoc "type" fs) (assoc "role" fs);
     el_label := assoc "AXLabel" fs;
     el_id := assoc "AXUniqueId" fs;
     el_value := assoc "AXValue" fs;
     el_enabled := assoc "enabled" fs;
     el_frame := assoc "frame" fs |}.

(** [if (element.label || element.id) elements.push(element)] *)
Definition push_if_labelled (element : Element) (elements : list Element)
  : list Element :=
  if truthy (el_label element) || truthy (el_id element)
  then elements ++ [element]
  else elements.

(** [extractElements(nodes, elements)]: the contents of [elements] when the
    call returns.  The array is shared by all the recursive calls, each of
    which appends to it.  The recursion follows the source: a node that is
    not an object is skipped, an array met as a node has none of the
    properties read, and [children] is followed only when it is an array.
    The two inner loops are the [for ... of] over [nodes] and the look-up of
    the [children] property among the node's fields. *)
Fixpoint extractElements (nodes : val) (elements : list Element) {struct nodes}
  : list Element :=
  let visit (node : val) (elements : list Element) : list Element :=
    match node with
    | Obj fs =>
        let elements := push_if_labelled (element_of fs) elements in
        (fix children (l : list (string * val)) : list Element :=
           match l with
           | [] => elements
           | (k, v) :: l' =>
               if String.eqb "children" k then
                 match v with
                 | Arr _ => extractElements v elements
                 | _ => elements
                 end
               else children l'
           end) fs
    | _ => elements
    end in
  match nodes with
  | Arr items =>
      (fix loop (l : list val) (elements : list Element) : list Element :=
         match l with
         | [] => elements
         | node :: l' => loop l' (visit node elements)
         end) items elements
  | _ => visit nodes elements
  end.

End DescribeUI.

(** Presentation code of the repository (text templating of the device list
    and of the element summary), kept abstract; either may throw. *)
Class Presentation {H : Host} := {
  formatDevices : list Device -> Outcome string;
  formatSummary : list Element -> Outcome string
}.

Section Tools.
Context {H : Host} {P : Presentation}.
Local Open Scope effect_scope.

(** The check mark that opens a success message. *)
Definition check_mark : string := String "226" (String "156" (String "147" "")).

Definition dquote : string := String "034" "".

Definition not_running : exn := Error "No iOS Simulator is currently running".

(** The [try] block of [ScreenshotTool.execute]. *)
Definition ScreenshotTool_try (args : val) : M ToolResponse :=
  let! booted := isSimulatorBooted in
  if negb booted then
    ret (createErrorResponse not_running "Error: Please launch a simulator first")
  else
    let! buffer := takeScreenshot in
    let base64Image := base64 buffer in
    ret (createImageResponse base64Image "image/png"
           "Here is the current screen of the iOS Simulator.").

Definition ScreenshotTool_execute (args : val) : M ToolResponse :=
  try_catch (ScreenshotTool_try args)
    (fun error => ret (createErrorResponse error "Failed to take screenshot")).

(** The [try] block of [ListDevicesTool.execute]. *)
Definition ListDevicesTool_try (args : val) : M ToolResponse :=
  let! a := lift (get_opt args "available_only") in
  let availableOnly := or_else a (Bool false) in
  let! devicesData := getDevices in
  let! devices := lift (parseDevices devicesData availableOnly) in
  let! sortedDevices := lift (sortDevices devices) in
  let! formattedOutput := lift (formatDevices sortedDevices) in
  ret (createTextResponse formattedOutput).

Definition ListDevicesTool_execute (args : val) : M ToolResponse :=
  try_catch (ListDevicesTool_try args)
    (fun error => ret (createErrorResponse error "Failed to list devices")).

(** The [try] block of [TapTool.execute]. *)
Definition TapTool_try (args : val) : M ToolResponse :=
  let! booted := isSimulatorBooted in
  if negb booted then
    ret (createErrorResponse not_running "Please launch a simulator first")
  else
    let! ax := lift (get_opt args "x") in
    let! ay := lift (get_opt args "y") in
    let! aid := lift (get_opt args "id") in
    let! alabel := lift (get_opt args "label") in
    let hasCoordinates := negb (is_undefined ax) && negb (is_undefined ay) in
    let hasId := negb (is_undefined aid) in
    let hasLabel := negb (is_undefined alabel) in
    if negb hasCoordinates && negb hasId && negb hasLabel then
      ret (createErrorResponse (Error "Missing required arguments")
             "Provide either coordinates (x, y), accessibility id, or label")
    else
      let! vx := lift (get args "x") in
      let! vy := lift (get args "y") in
      let! vid := lift (get args "id") in
      let! vlabel := lift (get args "label") in
      let! result := tap {| x := vx; y := vy; id := vid; label := vlabel |} in
      let! description :=
        (if hasCoordinates then
           let! sx := lift (ToString vx) in
           let! sy := lift (ToString vy) in
           ret ("Tapped at coordinates (" +:+ sx +:+ ", " +:+ sy +:+ ")")
         else if hasId then
           let! s := lift (ToString vid) in
           ret ("Tapped element with id " +:+ dquote +:+ s +:+ dquote)
         else
           let! s := lift (ToString vlabel) in
           ret ("Tapped element with label " +:+ dquote +:+ s +:+ dquote)) in
      ret (createTextResponse (check_mark +:+ " " +:+ description)).

Definition TapTool_execute (args : val) : M ToolResponse :=
  try_catch (TapTool_try args)
    (fun error => ret (createErrorResponse error "Failed to tap")).

(** The [try] block of [SwipeTool.execute]. *)
Definition SwipeTool_try (args : val) : M ToolResponse :=
  let! booted := isSimulatorBooted in
  if negb booted then
    ret (createErrorResponse not_running "Please launch a simulator first")
  else
    let! direction := lift (get_opt args "direction") in
    if truthy direction then
      let! d := lift (get args "duration") in
      let! result := gesture direction d in
      let! s := lift (ToString direction) in
      ret (createTextResponse (check_mark +:+ " Performed " +:+ s +:+ " gesture"))
    else
      let! sx := lift (get_opt args "startX") in
      let! sy := lift (get_opt args "startY") in
      let! ex := lift (get_opt args "endX") in
      let! ey := lift (get_opt args "endY") in
      let hasCoordinates :=
        negb (is_undefined sx) && negb (is_undefined sy)
        && negb (is_undefined ex) && negb (is_undefined ey) in
      if negb hasCoordinates then
        ret (createErrorResponse (Error "Missing required arguments")
               "Provide either 'direction' for preset gestures, or all coordinates (startX, startY, endX, endY) for custom swipe")
      else
        let! d := lift (get args "duration") in
        let! result :=
          swipe {| startX := sx; startY := sy; endX := ex; endY := ey;
                   duration := d |} in
        let! tsx := lift (ToString sx) in
        let! tsy := lift (ToString sy) in
        let! tex := lift (ToString ex) in
        let! tey := lift (ToString ey) in
        ret (createTextResponse
               (check_mark +:+ " Swiped from (" +:+ tsx +:+ ", " +:+ tsy
                  +:+ ") to (" +:+ tex +:+ ", " +:+ tey +:+ ")")).

Definition SwipeTool_execute (args : val) : M ToolResponse :=
  try_catch (SwipeTool_try args)
    (fun error => ret (createErrorResponse error "Failed to swipe")).

(** [args.text.length > 50 ? args.text.substring(0, 47) + "..." : args.text];
    [typeText] has returned, so [text] is a string. *)
Definition displayText (text : val) : Outcome string :=
  match text with
  | Str s =>
      if Z.ltb 50 (Text.len s) then Ok (Text.substring0 47 s +:+ "...")
      else Ok s
  | _ => ToString text
  end.

(** The [try] block of [TypeTextTool.execute]. *)
Definition TypeTextTool_try (args : val) : M ToolResponse :=
  let! booted := isSimulatorBooted in
  if negb booted then
    ret (createErrorResponse not_running "Please launch a simulator first")
  else
    let! text := lift (get_opt args "text") in
    if negb (truthy text) then
      ret (createErrorResponse (Error "Missing required argument: text")
             "Please provide text to type")
    else
      let! result := typeText text in
      let! shown := lift (displayText text) in
      ret (createTextResponse
             (check_mark +:+ " Typed: " +:+ dquote +:+ shown +:+ dquote)).

Definition TypeTextTool_execute (args : val) : M ToolResponse :=
  try_catch (TypeTextTool_try args)
    (fun error => ret (createErrorResponse error "Failed to type text")).

(** The [try] block of [DescribeUITool.execute]. *)
Definition DescribeUITool_try (args : val) : M ToolResponse :=
  let! booted := isSimulatorBooted in
  if negb booted then
    ret (createErrorResponse not_running "Please launch a simulator first")
  else
    let! f := lift (get_opt args "format") in
    let format := or_else f (Str "summary") in
    let! uiHierarchy := describeUI in
    if strict_eq_str format "full" then
      ret (createTextResponse (JSON_stringify uiHierarchy))
    else
      let elements := extractElements uiHierarchy [] in
      let! output := lift (formatSummary elements) in
      ret (createTextResponse output).

Definition DescribeUITool_execute (args : val) : M ToolResponse :=
  try_catch (DescribeUITool_try args)
    (fun error => ret (createErrorResponse error "Failed to describe UI")).

(** The registered tools and the dispatch on their names. *)
Inductive Tool :=
| ScreenshotTool | ListDevicesTool | TapTool | SwipeTool | TypeTextTool
| DescribeUITool.

Definition tool_name (t : Tool) : string :=
  match t with
  | ScreenshotTool => "get_screenshot"
  | ListDevicesTool => "list_devices"
  | TapTool => "tap"
  | SwipeTool => "swipe"
  | TypeTextTool => "type_text"
  | DescribeUITool => "describe_ui"
  end.

Definition Tool_execute (t : Tool) (args : val) : M ToolResponse :=
  match t with
  | ScreenshotTool => ScreenshotTool_execute args
  | ListDevicesTool => ListDevicesTool_execute args
  | TapTool => TapTool_execute args
  | SwipeTool => SwipeTool_execute args
  | TypeTextTool => TypeTextTool_execute args
  | DescribeUITool => DescribeUITool_execute args
  end.

Definition Tool_try (t : Tool) (args : val) : M ToolResponse :=
  match t with
  | ScreenshotTool => ScreenshotTool_try args
  | ListDevicesTool => ListDevicesTool_try args
  | TapTool => TapTool_try args
  | SwipeTool => SwipeTool_try args
  | TypeTextTool => TypeTextTool_try args
  | DescribeUITool => DescribeUITool_try args
  end.

(** The context string of each tool's [catch] clause. *)
Definition catch_context (t : Tool) : string :=
  match t with
  | ScreenshotTool => "Failed to take screenshot"
  | ListDevicesTool => "Failed to list devices"
  | TapTool => "Failed to tap"
  | SwipeTool => "Failed to swipe"
  | TypeTextTool => "Failed to type text"
  | DescribeUITool => "Failed to describe UI"
  end.

End Tools.

(* ================================================================== *)
(** ** tools/ToolRegistry.js and the request handler of server.js *)

Section ToolRegistry.
Context {T : Type} (name_of : T -> string).

(** [this.tools], a [Map] from names to tools: its entries in insertion
    order.  [Map.prototype.set] on a key that is present replaces the value
    where the key stands; on a new key it appends. *)
Fixpoint Map_set (k : string) (v : T) (m : list (string * T)) : list (string * T) :=
  match m with
  | [] => [(k, v)]
  | (k', v') :: m' =>
      if String.eqb k k' then (k, v) :: m' else (k', v') :: Map_set k v m'
  end.

Fixpoint Map_get (k : string) (m : list (string * T)) : option T :=
  match m with
  | [] => None
  | (k', v) :: m' => if String.eqb k k' then Some v else Map_get k m'
  end.

Definition ToolRegistry_register (tool : T) (tools : list (string * T))
  : list (string * T) :=
  Map_set (name_of tool) tool tools.

(** [undefined] is [None]. *)
Definition ToolRegistry_get (name : string) (tools : list (string * T)) : option T :=
  Map_get name tools.

Definition ToolRegistry_has (name : string) (tools : list (string * T)) : bool :=
  match Map_get name tools with
  | Some _ => true
  | None => false
  end.

Definition ToolRegistry_getAllDefinitions {D} (getDefinition : T -> D)
    (tools : list (string * T)) : list D :=
  map (fun entry => getDefinition (snd entry)) tools.

End ToolRegistry.

Section Server.
Context {H : Host} {P : Presentation}.
Local Open Scope effect_scope.

(** The registry [server.js] builds. *)
Definition toolRegistry : list (string * Tool) :=
  ToolRegistry_register tool_name ListDevicesTool
    (ToolRegistry_register tool_name ScreenshotTool []).

(** The handler of [CallToolRequestSchema]: [toolName] is
    [request.params.name], [arguments] is [request.params.arguments]. *)
Definition CallTool (registry : list (string * Tool)) (toolName : string)
    (arguments : val) : M ToolResponse :=
  match ToolRegistry_get toolName registry with
  | None => throw (Error ("Tool not found: " +:+ toolName))
  | Some tool =>
      let args := if truthy arguments then arguments else Obj [] in
      Tool_execute tool args
  end.

End Server.

(* ================================================================== *)
(** ** A fixture host

    A test double in the sense of the specification: integral numbers, a
    code-unit collation, and a simulator that reports one booted device and
    lets every command succeed with no output; a file that is not a path is
    refused with a type error. *)

Module Fixture.

Inductive num :=
| NotANumber
| Infinite (negative : bool)
| Int (z : Z).

Definition num_lt (a b : num) : bool :=
  match a, b with
  | Int p, Int q => (p <? q)%Z
  | Infinite true, Int _ => true
  | Infinite true, Infinite false => true
  | Int _, Infinite false => true
  | _, _ => false
  end.

Definition num_toString (a : num) : string :=
  match a with
  | NotANumber => "NaN"
  | Infinite true => "-Infinity"
  | Infinite false => "Infinity"
  | Int z => Text.decimal z
  end.

Definition digit_value (c : ascii) : Z := Z.of_nat (Text.code c - 48).

(** Decimal numerals and the empty string; anything else is not a
    number. *)
Definition parse (s : string) : num :=
  if forallb Regex.is_digit (Text.chars s)
  then Int (fold_left (fun acc c => (10 * acc + digit_value c)%Z) (Text.chars s) 0%Z)
  else NotANumber.

Definition collate (s t : string) : Z :=
  match String.compare s t with
  | Lt => (-1)%Z
  | Eq => 0%Z
  | Gt => 1%Z
  end.

Definition newline : string := String "010" "".

Definition booted_listing : string :=
  "== Devices ==" +:+ newline +:+ "-- iOS 17.0 --" +:+ newline
    +:+ "    iPhone 15 (ABCDEF01-2345-6789-ABCD-EF0123456789) (Booted)"
    +:+ newline.

Definition the_udid : string := "ABCDEF01-2345-6789-ABCD-EF0123456789".

Definition respond (history : list Call) (c : Call) : SpawnResult :=
  match file c, argv c with
  | Own "/usr/bin/xcrun", ["simctl"; "list"; "devices"; "booted"] =>
      {| error := None; status := Some 0%Z; stdout := booted_listing; stderr := "" |}
  | Inherited _, _ =>
      {| error := Some (TypeError "The file argument must be of type string");
         status := None; stdout := ""; stderr := "" |}
  | _, _ =>
      {| error := None; status := Some 0%Z; stdout := ""; stderr := "" |}
  end.

#[local] Instance host : Host := {|
  number := num;
  NaN := NotANumber;
  lit := Int;
  Number_isFinite := fun a => match a with Int _ => true | _ => false end;
  lt := num_lt;
  number_truthy := fun a => match a with
                            | Int z => negb (z =? 0)%Z
                            | NotANumber => false
                            | Infinite _ => true
                            end;
  number_toString := num_toString;
  StringToNumber := parse;
  ObjectToNumber := fun _ => Ok NotANumber;
  ObjectToString := fun _ => Ok "[object Object]";
  JSON_parse := fun _ => None;
  JSON_stringify := fun _ => "{}";
  base64 := fun s => s;
  localeCompare := collate;
  spawnSync_result := respond
|}.

#[local] Instance presentation : Presentation := {|
  formatDevices := fun ds => Ok ("Found " +:+ Text.decimal_nat (length ds) +:+ " iOS Simulators");
  formatSummary := fun es => Ok ("Found " +:+ Text.decimal_nat (length es) +:+ " accessible elements")
|}.

End Fixture.

(** A second test double: the same host with no device booted.  The probe
    succeeds and lists nothing. *)
Module IdleFixture.

Definition respond (history : list Call) (c : Call) : SpawnResult :=
  {| error := None; status := Some 0%Z;
     stdout := "== Devices ==" +:+ Fixture.newline; stderr := "" |}.

#[local] Instance host : Host := {|
  number := Fixture.num;
  NaN := Fixture.NotANumber;
  lit := Fixture.Int;
  Number_isFinite := @Number_isFinite Fixture.host;
  lt := Fixture.num_lt;
  number_truthy := @number_truthy Fixture.host;
  number_toString := Fixture.num_toString;
  StringToNumber := Fixture.parse;
  ObjectToNumber := @ObjectToNumber Fixture.host;
  ObjectToString := @ObjectToString Fixture.host;
  JSON_parse := @JSON_parse Fixture.host;
  JSON_stringify := @JSON_stringify Fixture.host;
  base64 := @base64 Fixture.host;
  localeCompare := Fixture.collate;
  spawnSync_result := respond
|}.

#[local] Instance presentation : Presentation := {|
  formatDevices := fun ds => Ok ("Found " +:+ Text.decimal_nat (length ds) +:+ " iOS Simulators");
  formatSummary := fun es => Ok ("Found " +:+ Text.decimal_nat (length es) +:+ " accessible elements")
|}.

End IdleFixture.

(* ================================================================== *)
(** * The vocabulary of the properties

    What the statements below speak of: the shapes the specification names,
    the order of a traversal, what it is for an array to be sorted, the
    shapes of a response. *)

Section Vocabulary.
Context {H : Host}.
Import Regex.

(** ** Strings and patterns *)

(** The denylist as the specification spells it. *)
Definition denylist : string := ";&|`$\<>{}[]()#*?~!".

(** [s] holds at least one character of the denylist. *)
Definition has_denied (s : string) : Prop :=
  exists c, In c (Text.chars s) /\ In c (Text.chars denylist).

(** A hexadecimal digit in either case. *)
Definition hex_digits : string := "0123456789abcdefABCDEF".

Definition is_hex (c : ascii) : Prop := In c (Text.chars hex_digits).

(** A group of exactly [n] hexadecimal digits. *)
Definition hex_group (n : nat) (g : list ascii) : Prop :=
  length g = n /\ Forall is_hex g.

(** The 8-4-4-4-12 grouping, hyphen separated. *)
Definition udid_shape (s : string) : Prop :=
  exists g1 g2 g3 g4 g5,
    Text.chars s
    = g1 ++ "-"%char :: g2 ++ "-"%char :: g3 ++ "-"%char :: g4 ++ "-"%char :: g5 /\
    hex_group 8 g1 /\ hex_group 4 g2 /\ hex_group 4 g3 /\ hex_group 4 g4 /\
    hex_group 12 g5.

(** The test a piece applies to a code unit, and what it is for a group of
    code units to fit a piece. *)
Definition piece_test (ci : bool) (p : piece) : ascii -> bool :=
  if ci then in_class_i (cls p) else in_class (cls p).

Definition fits (ci : bool) (p : piece) (g : list ascii) : Prop :=
  length g = width p /\ forallb (piece_test ci p) g = true.

(** The classes of the identifier pattern hold no lower-case letter. *)
Definition upper_only (cl : list class_item) : Prop :=
  forall c, in_class cl c = true -> Text.upper c = c.



(** ** The accessibility tree *)

(** A node is an object, given by its fields. *)
Definition node : Type := list (string * val).

(** The depth-first, parent-before-children order of the nodes of a tree:
    an object is a node, and its children are the elements of the array
    under its [children] property, if there is one. *)
Inductive visits : val -> list node -> Prop :=
| visits_object (fs : node) (ns : list node) :
    children_visits (assoc "children" fs) ns ->
    visits (Obj fs) (fs :: ns)
| visits_other (v : val) :
    (forall fs, v <> Obj fs) -> visits v []
with children_visits : val -> list node -> Prop :=
| children_array (items : list val) (ns : list node) :
    forest_visits items ns -> children_visits (Arr items) ns
| children_absent (v : val) :
    Array_isArray v = false -> children_visits v []
with forest_visits : list val -> list node -> Prop :=
| forest_nil : forest_visits [] []
| forest_cons (v : val) (vs : list val) (n1 n2 : list node) :
    visits v n1 -> forest_visits vs n2 ->
    forest_visits (v :: vs) (n1 ++ n2).


(** The node carries a label or an identifier. *)
Definition carries (fs : node) : bool :=
  truthy (assoc "AXLabel" fs) || truthy (assoc "AXUniqueId" fs).

Definition flattened (ns : list node) : list Element :=
  map element_of (List.filter carries ns).

(** Visiting one element of [nodes]: the body of the loop of
    [extractElements]. *)
Definition visit (v : val) (els : list Element) : list Element :=
  match v with
  | Obj _ => extractElements v els
  | _ => els
  end.

(** ** Sorting *)

(** Insertion sort with a comparator that cannot throw. *)
Fixpoint insert_pure {A} (f : A -> A -> Z) (x : A) (l : list A) : list A :=
  match l with
  | [] => [x]
  | y :: l' => if (f x y <=? 0)%Z then x :: y :: l' else y :: insert_pure f x l'
  end.

Fixpoint sort_pure {A} (f : A -> A -> Z) (l : list A) : list A :=
  match l with
  | [] => []
  | x :: l' => insert_pure f x (sort_pure f l')
  end.

(** [a] may stand before [b]. *)
Definition before {A} (f : A -> A -> Z) (a b : A) : Prop := (f a b <= 0)%Z.

(** The device has a name, a string. *)
Definition named (d : Device) : Prop := exists s, name d = Str s.

Definition name_text (d : Device) : string :=
  match name d with Str s => s | _ => "" end.

(** What [compareDevices] returns on named devices. *)
Definition compare_pure (a b : Device) : Z :=
  if is_booted a && negb (is_booted b) then (-1)%Z
  else if negb (is_booted a) && is_booted b then 1%Z
  else localeCompare (name_text a) (name_text b).

(** ** Arguments and responses *)

(** Reading an argument of the bag: [args?.k]. *)
Definition arg (args : val) (k : string) : val :=
  match get_opt args k with
  | Ok v => v
  | Throw _ => Undefined
  end.

(** The error shape: one text part, [<context>: <message>], and the flag. *)
Definition is_error_response (r : ToolResponse) : Prop :=
  exists context msg,
    r = {| content := [TextPart (context +:+ ": " +:+ msg)];
           isError := Some true |}.

(** The success shapes: a text, or an image followed by a text; no flag. *)
Definition is_success_response (r : ToolResponse) : Prop :=
  (exists text, r = {| content := [TextPart text]; isError := None |}) \/
  (exists data mimeType text,
      r = {| content := [ImagePart data mimeType; TextPart text];
             isError := None |}).

Definition well_formed (r : ToolResponse) : Prop :=
  is_error_response r \/ is_success_response r.

(** Every value the computation can return satisfies [Q]. *)
Definition returns {A} (m : M A) (Q : A -> Prop) : Prop :=
  forall w a w', m w = (Ok a, w') -> Q a.

(** ** The calls a run makes *)

(** The process was started and exited with status 0. *)
Definition succeeded (r : SpawnResult) : bool :=
  match error r, status r with
  | None, Some 0%Z => true
  | _, _ => false
  end.

(** The call starts one of the two allow-listed executables from its absolute
    path, without a shell. *)
Definition allow_listed (c : Call) : Prop :=
  (file c = Own "/usr/bin/xcrun" \/ file c = Own "/opt/homebrew/bin/axe") /\
  shell (options c) = false.

(** Whatever the computation does, it only adds calls that satisfy [Q] to
    the log. *)
Definition only_calls {A} (Q : Call -> Prop) (m : M A) : Prop :=
  forall w, exists calls, snd (m w) = w ++ calls /\ Forall Q calls.

(** The computation throws ["No simulator is currently booted"] after the
    probe and nothing else. *)
Definition stops_at_probe {A} (m : M A) (w : World) : Prop :=
  m w = (Throw (Error "No simulator is currently booted"), w ++ [probe_call]).

(** The call behind [execute(["xcrun", "simctl", "list", "devices",
    "--json"])]. *)
Definition listing_call : Call :=
  {| file := Own "/usr/bin/xcrun";
     argv := ["simctl"; "list"; "devices"; "--json"];
     options := defaultOptions |}.

(** The call behind [takeScreenshot]: the output is captured as a buffer of
    at most 10 MiB. *)
Definition screenshot_call : Call :=
  {| file := Own "/usr/bin/xcrun";
     argv := ["simctl"; "io"; "booted"; "screenshot"; "-"];
     options := {| encoding := None; maxBuffer := Some (10 * 1024 * 1024)%Z;
                   shell := false |} |}.

(** The characters [SAFE_ID_PATTERN] admits. *)
Definition safe_id_chars : string :=
  "abcdefghijklmnopqrstuvwxyzABCDEFGHIJKLMNOPQRSTUVWXYZ0123456789_-.:".

(** The flags [push_duration] may add for the duration [d]. *)
Definition duration_flags (d : val) (flags : list string) : Prop :=
  (is_undefined d = true /\ flags = []) \/
  (is_undefined d = false /\
   exists v, validateDuration d = Ok v /\
             flags = ["--duration"; number_toString v]).

(** The element carries a label or an identifier. *)
Definition labelled (e : Element) : Prop :=
  truthy (el_label e) || truthy (el_id e) = true.

(** The keys of a [Map]. *)
Definition keys {T} (m : list (string * T)) : list string := map fst m.

(** ** The payload of the device listing *)

(** The device [parseDevices] builds from the fields [fs] of a record listed
    under [runtime]. *)
Definition device_of (runtime : string) (fs : node) : Device :=
  {| name := assoc "name" fs; udid := assoc "udid" fs; state := assoc "state" fs;
     runtime := extractIOSVersion runtime;
     isAvailable := assoc "isAvailable" fs;
     deviceType := assoc "deviceTypeIdentifier" fs |}.

(** The record is kept under the filter [availableOnly]. *)
Definition kept (availableOnly : val) (fs : node) : bool :=
  negb (truthy availableOnly) || truthy (assoc "isAvailable" fs).

(** The [devices] object of a well-formed payload: under each runtime, an
    array of records. *)
Definition devices_object (table : list (string * list node)) : val :=
  Obj (map (fun entry => (fst entry, Arr (map Obj (snd entry)))) table).

(** ** Fixtures on any host *)

(** The payload of [simctl list devices --json] for one booted device under
    the runtime of the specification's fixture. *)
Definition fixture_devicesData : val :=
  Obj [("devices",
        Obj [("com.apple.CoreSimulator.SimRuntime.iOS-17-0",
              Arr [Obj [("name", Str "iPhone 15");
                        ("udid", Str "ABCDEF01-2345-6789-ABCD-EF0123456789");
                        ("state", Str "Booted");
                        ("isAvailable", Bool true);
                        ("deviceTypeIdentifier",
                         Str "com.apple.CoreSimulator.SimDeviceType.iPhone-15")]])])].







End Vocabulary.

(** ** Fixtures on the fixture host *)

Definition fixture_device (n st : string) : @Device Fixture.host :=
  {| name := Str n; udid := Str Fixture.the_udid; state := Str st;
     runtime := "iOS 17.0"; isAvailable := Bool true; deviceType := Undefined |}.

Definition fixture_devices : list (@Device Fixture.host) :=
  [fixture_device "iPhone 15" "Shutdown"; fixture_device "iPad Air" "Booted";
   fixture_device "Apple TV" "Shutdown"].

Definition fixture_store : gmap nat (list (@Device Fixture.host)) :=
  <[7 := fixture_devices]> ∅.

(** A request with both a coordinate pair and an identifier, on the fixture
    host. *)
Definition fixture_number (z : Z) : @val Fixture.host := @Num Fixture.num (Fixture.Int z).







(** A swipe with a duration, a record of the device listing, and the empty
    payload. *)
Definition fixture_swipe : @SwipeOptions Fixture.host :=
  {| startX := fixture_number 200; startY := fixture_number 600;
     endX := fixture_number 200; endY := fixture_number 100;
     duration := fixture_number 1 |}.

Definition fixture_record : @node Fixture.host :=
  [("name", Str "iPhone 15");
   ("udid", Str "ABCDEF01-2345-6789-ABCD-EF0123456789");
   ("state", Str "Booted");
   ("isAvailable", Bool true);
   ("deviceTypeIdentifier",
    Str "com.apple.CoreSimulator.SimDeviceType.iPhone-15")].

Definition fixture_table : list (string * list (@node Fixture.host)) :=
  [("com.apple.CoreSimulator.SimRuntime.iOS-17-0", [fixture_record])].

Definition empty_payload : @val Fixture.host := Obj [].

Definition hello : @val Fixture.host := Str "hello".

(* ================================================================== *)
(** * Properties *)

(** ** Tactics and general facts *)

Ltac each_ascii c :=
  destruct c as [[] [] [] [] [] [] [] []].

Lemma chars_of_list (l : list ascii) :
  Text.chars (string_of_list_ascii l) = l.
Proof. apply list_ascii_of_string_of_list_ascii. Qed.

Lemma of_chars (s : string) : string_of_list_ascii (Text.chars s) = s.
Proof. apply string_of_list_ascii_of_string. Qed.


Lemma chars_inj (s t : string) : Text.chars s = Text.chars t -> s = t.
Proof.
  intros E. rewrite <- (of_chars s), <- (of_chars t). now rewrite E.
Qed.

(* ------------------------------------------------------------------ *)
(** ** C1: the allow-list of the command executor *)

Section AllowList.
Context {H : Host}.

Lemma in_ALLOWED_COMMANDS_spec (name : string) :
  in_ALLOWED_COMMANDS name = true <->
  name = "axe" \/ name = "xcrun" \/ In name Object_prototype.
Proof.
  unfold in_ALLOWED_COMMANDS, ALLOWED_COMMANDS.
  destruct (decide (name = "axe")) as [->|Na]; [vm_compute; tauto|].
  destruct (decide (name = "xcrun")) as [->|Nx]; [vm_compute; tauto|].
  rewrite lookup_insert_ne by congruence.
  rewrite lookup_insert_ne by congruence.
  rewrite lookup_empty.
  rewrite existsb_exists. split.
  - intros (k & Hin & Hk). apply String.eqb_eq in Hk. subst. tauto.
  - intros [?|[?|Hin]]; try congruence.
    exists name. split; [assumption|apply String.eqb_refl].
Qed.

(** A name that is neither an own key nor an inherited one is refused and
    nothing is spawned. *)
Lemma execute_refuses (command : list string) (o : ExecOptions) (w : World) :
  in_ALLOWED_COMMANDS (commandName_of command) = false ->
  execute command o w
  = (Throw (Error ("Command not allowed: " +:+ commandName_of command)), w).
Proof. intros E. unfold execute. rewrite E. reflexivity. Qed.

Lemma executeSafeCommand_refuses (command : string) (args : list string) (w : World) :
  in_ALLOWED_COMMANDS command = false ->
  executeSafeCommand command args w
  = (Throw (Error ("Command not allowed: " +:+ command)), w).
Proof. intros E. unfold executeSafeCommand. rewrite E. reflexivity. Qed.

Lemma check_result_world (o : SpawnOptions) (r : SpawnResult) (w : World) :
  snd (check_result o r w) = w.
Proof.
  unfold check_result. destruct (error r); [reflexivity|].
  destruct (status r) as [[| |]|]; reflexivity.
Qed.

(** Past the check, [execute] is one call of [spawnSync] and the two tests
    on its result. *)
Lemma execute_past_check (command : list string) (o : ExecOptions) (w : World) :
  in_ALLOWED_COMMANDS (commandName_of command) = true ->
  let c := {| file := ALLOWED_COMMANDS_get (commandName_of command);
              argv := tl command;
              options := merge_options defaultOptions o |} in
  execute command o w
  = check_result (merge_options defaultOptions o) (spawnSync_result w c) (w ++ [c]).
Proof. intros E. unfold execute. rewrite E. reflexivity. Qed.

Lemma executeSafeCommand_past_check (command : string) (args : list string)
    (w : World) :
  in_ALLOWED_COMMANDS command = true ->
  let o := {| encoding := Some "utf8"; maxBuffer := None; shell := false |} in
  let c := {| file := ALLOWED_COMMANDS_get command; argv := args; options := o |} in
  executeSafeCommand command args w
  = match check_result o (spawnSync_result w c) (w ++ [c]) with
    | (Ok r, w') => (Ok (stdout r), w')
    | (Throw e, w') => (Throw e, w')
    end.
Proof. intros E. unfold executeSafeCommand. rewrite E. reflexivity. Qed.

Lemma executeSafeCommand_world (command : string) (args : list string) (w : World) :
  in_ALLOWED_COMMANDS command = true ->
  snd (executeSafeCommand command args w)
  = w ++ [{| file := ALLOWED_COMMANDS_get command; argv := args;
             options := {| encoding := Some "utf8"; maxBuffer := None;
                           shell := false |} |}].
Proof.
  intros E. rewrite executeSafeCommand_past_check by assumption. cbv zeta.
  match goal with |- context [check_result ?o ?r ?w'] =>
    pose proof (check_result_world o r w') as W;
    destruct (check_result o r w') as [[r'|e] w'']
  end; exact W.
Qed.

Lemma execute_world (command : list string) (o : ExecOptions) (w : World) :
  in_ALLOWED_COMMANDS (commandName_of command) = true ->
  snd (execute command o w)
  = w ++ [{| file := ALLOWED_COMMANDS_get (commandName_of command);
             argv := tl command;
             options := merge_options defaultOptions o |}].
Proof.
  intros E. rewrite execute_past_check by assumption. apply check_result_world.
Qed.

(** For the two listed names the check passes and the process is spawned
    from the stored path. *)
Lemma execute_spawns_listed (name : string) (args : list string)
    (o : ExecOptions) (w : World) :
  name = "axe" \/ name = "xcrun" ->
  exists path,
    ALLOWED_COMMANDS !! name = Some path /\
    snd (execute (name :: args) o w)
    = w ++ [{| file := Own path; argv := args;
               options := merge_options defaultOptions o |}].
Proof.
  intros [->| ->]; eexists; (split; [vm_compute; reflexivity|]);
    rewrite execute_world by (vm_compute; reflexivity); reflexivity.
Qed.

Lemma executeSafeCommand_spawns_listed (name : string) (args : list string)
    (w : World) :
  name = "axe" \/ name = "xcrun" ->
  exists path,
    ALLOWED_COMMANDS !! name = Some path /\
    snd (executeSafeCommand name args w)
    = w ++ [{| file := Own path; argv := args;
               options := {| encoding := Some "utf8"; maxBuffer := None;
                             shell := false |} |}].
Proof.
  intros [->| ->]; eexists; (split; [vm_compute; reflexivity|]);
    rewrite executeSafeCommand_world by (vm_compute; reflexivity); reflexivity.
Qed.

End AllowList.

(** C1 (the code departs from the claim).  The name ["toString"] is not in
    the allow-list, yet [in] finds it on the prototype of the object literal:
    neither method throws at the check, both go on to call [spawnSync], and
    what they hand it as the executable is the inherited property. *)
Theorem inherited_name_passes_the_allow_list_check :
  forall (H : Host) (w : World),
    ALLOWED_COMMANDS !! "toString" = None /\
    in_ALLOWED_COMMANDS "toString" = true /\
    snd (execute ["toString"] no_options w)
    = w ++ [{| file := Inherited "toString"; argv := [];
               options := defaultOptions |}] /\
    snd (executeSafeCommand "toString" [] w)
    = w ++ [{| file := Inherited "toString"; argv := [];
               options := {| encoding := Some "utf8"; maxBuffer := None;
                             shell := false |} |}].
Proof.
  intros H w. split; [vm_compute; reflexivity|]. split; [vm_compute; reflexivity|].
  split.
  - rewrite execute_world by (vm_compute; reflexivity). reflexivity.
  - rewrite executeSafeCommand_world by (vm_compute; reflexivity). reflexivity.
Qed.

(** On the fixture host, which refuses a file that is not a path the way
    Node does, the error that surfaces is that refusal, not the one of the
    allow-list. *)
Example inherited_name_on_the_fixture_host :
  execute (H:=Fixture.host) ["toString"] no_options []
  = (Throw (TypeError "The file argument must be of type string"),
     [{| file := Inherited "toString"; argv := []; options := defaultOptions |}]) /\
  execute (H:=Fixture.host) ["rm"; "-rf"; "/"] no_options []
  = (Throw (Error "Command not allowed: rm"), []).
Proof. split; vm_compute; reflexivity. Qed.

(* ------------------------------------------------------------------ *)
(** ** C2: the metacharacter denylist of the label and text validators *)

Lemma in_class_singletons (l : list ascii) (c : ascii) :
  Regex.in_class (map Regex.One l) c = existsb (Ascii.eqb c) l.
Proof.
  unfold Regex.in_class. induction l as [|d l IH]; simpl; [reflexivity|].
  now rewrite IH.
Qed.

Lemma SHELL_METACHARACTERS_is_denylist :
  Regex.SHELL_METACHARACTERS_class = map Regex.One (Text.chars denylist).
Proof. reflexivity. Qed.

Lemma SHELL_METACHARACTERS_test_spec (s : string) :
  Regex.SHELL_METACHARACTERS_test s = true <-> has_denied s.
Proof.
  unfold Regex.SHELL_METACHARACTERS_test, has_denied.
  rewrite SHELL_METACHARACTERS_is_denylist, existsb_exists.
  split.
  - intros (c & Hc & Hin). exists c. split; [assumption|].
    rewrite in_class_singletons, existsb_exists in Hin.
    destruct Hin as (d & Hd & E). apply Ascii.eqb_eq in E. now subst.
  - intros (c & Hc & Hd). exists c. split; [assumption|].
    rewrite in_class_singletons, existsb_exists.
    exists c. split; [assumption|apply Ascii.eqb_refl].
Qed.

Lemma len_zero (s : string) : (Text.len s =? 0)%Z = true <-> s = "".
Proof.
  unfold Text.len. rewrite Z.eqb_eq.
  destruct s; simpl; split; intros E; try reflexivity; try discriminate; lia.
Qed.

(** C2.  A string that holds a character of the denylist
    [;&|`$\<>{}[]()#*?~!] makes [validateAccessibilityLabel] and
    [validateTypeText] throw; a non-empty string that holds none and is
    within the length bound (512 for a label, 10000 for text to type) is
    returned unchanged. *)
Theorem validators_enforce_the_denylist :
  forall (H : Host) (s : string),
    (has_denied s ->
       (exists e, validateAccessibilityLabel (Str s) = Throw e) /\
       (exists e, validateTypeText (Str s) = Throw e)) /\
    (s <> "" -> ~ has_denied s ->
       ((Text.len s <= 512)%Z -> validateAccessibilityLabel (Str s) = Ok s) /\
       ((Text.len s <= 10000)%Z -> validateTypeText (Str s) = Ok s)).
Proof.
  intros H s. split.
  - intros D. apply SHELL_METACHARACTERS_test_spec in D.
    unfold validateAccessibilityLabel, validateTypeText. rewrite D.
    split.
    + destruct (Text.len s =? 0)%Z; [eauto|].
      destruct (512 <? Text.len s)%Z; eauto.
    + destruct (Text.len s =? 0)%Z; [eauto|].
      destruct (10000 <? Text.len s)%Z; eauto.
  - intros NE ND.
    assert (Z0 : (Text.len s =? 0)%Z = false).
    { destruct (Text.len s =? 0)%Z eqn:E; [|reflexivity].
      apply len_zero in E. contradiction. }
    assert (T : Regex.SHELL_METACHARACTERS_test s = false).
    { destruct (Regex.SHELL_METACHARACTERS_test s) eqn:E; [|reflexivity].
      apply SHELL_METACHARACTERS_test_spec in E. contradiction. }
    unfold validateAccessibilityLabel, validateTypeText. rewrite Z0, T.
    split; intros L.
    + assert (E : (512 <? Text.len s)%Z = false) by (apply Z.ltb_ge; lia).
      now rewrite E.
    + assert (E : (10000 <? Text.len s)%Z = false) by (apply Z.ltb_ge; lia).
      now rewrite E.
Qed.

Lemma validators_enforce_the_denylist_witness :
  (has_denied "rm -rf $HOME" ->
     (exists e, validateAccessibilityLabel (H:=Fixture.host) (Str "rm -rf $HOME") = Throw e) /\
     (exists e, validateTypeText (H:=Fixture.host) (Str "rm -rf $HOME") = Throw e)) /\
  has_denied "rm -rf $HOME" /\
  validateAccessibilityLabel (H:=Fixture.host) (Str "Sign in") = Ok "Sign in" /\
  validateTypeText (H:=Fixture.host) (Str "Sign in") = Ok "Sign in".
Proof.
  pose proof (validators_enforce_the_denylist Fixture.host "rm -rf $HOME") as [D _].
  pose proof (validators_enforce_the_denylist Fixture.host "Sign in") as [_ C].
  split; [exact D|]. split.
  - exists "$"%char. split; vm_compute; tauto.
  - assert (NE : "Sign in" <> "") by discriminate.
    assert (ND : ~ has_denied "Sign in").
    { intros D'. apply SHELL_METACHARACTERS_test_spec in D'. vm_compute in D'.
      discriminate. }
    destruct (C NE ND) as [L T]. split.
    + apply L. vm_compute. discriminate.
    + apply T. vm_compute. discriminate.
Defined.

(* ------------------------------------------------------------------ *)
(** ** C7: the device identifier *)

Section Pieces.
Import Regex.

Lemma take_class_spec (inc : ascii -> bool) (n : nat) (s m rest : list ascii) :
  take_class inc n s = Some (m, rest) <->
  s = m ++ rest /\ length m = n /\ forallb inc m = true.
Proof.
  revert s m rest. induction n as [|n IH]; intros s m rest; simpl.
  - split.
    + intros E. inversion E. subst. auto.
    + intros (-> & L & _). destruct m; [reflexivity|discriminate].
  - destruct s as [|c s].
    + split; [discriminate|].
      intros (E & L & _). destruct m; discriminate.
    + destruct (inc c) eqn:Ic.
      * destruct (take_class inc n s) as [[m' rest']|] eqn:T.
        -- apply IH in T. destruct T as (-> & L & F). split.
           ++ intros E. inversion E. subst. simpl. rewrite Ic, F. auto.
           ++ intros (E & L' & F'). destruct m as [|d m]; [discriminate|].
              simpl in *. inversion E. subst d.
              apply andb_prop in F'. destruct F' as [_ F'].
              assert (T : take_class inc n (m' ++ rest') = Some (m, rest)).
              { apply IH. split; [assumption|]. split; [lia|assumption]. }
              assert (T' : take_class inc n (m' ++ rest') = Some (m', rest')).
              { apply IH. auto. }
              rewrite T in T'. inversion T'. reflexivity.
        -- split; [discriminate|].
           intros (E & L & F). destruct m as [|d m]; [discriminate|].
           simpl in *. inversion E. subst.
           apply andb_prop in F. destruct F as [_ F].
           assert (T' : take_class inc n (m ++ rest) = Some (m, rest)).
           { apply IH. split; [reflexivity|]. split; [lia|assumption]. }
           rewrite T' in T. discriminate.
      * split; [discriminate|].
        intros (E & L & F). destruct m as [|d m]; [discriminate|].
        simpl in *. inversion E. subst. rewrite Ic in F. discriminate.
Qed.

Lemma match_pieces_cons (ci : bool) (p : piece) (ps : list piece)
    (s m rest : list ascii) :
  match_pieces ci (p :: ps) s = Some (m, rest) <->
  exists g m', m = g ++ m' /\ length g = width p /\
               forallb (piece_test ci p) g = true /\
               s = g ++ m' ++ rest /\
               match_pieces ci ps (m' ++ rest) = Some (m', rest).
Proof.
  simpl. fold (piece_test ci p). split.
  - destruct (take_class (piece_test ci p) (width p) s) as [[g r]|] eqn:T;
      [|discriminate].
    apply take_class_spec in T. destruct T as (-> & L & F).
    destruct (match_pieces ci ps r) as [[m' rest']|] eqn:R; [|discriminate].
    intros E. inversion E. subst.
    assert (r = m' ++ rest) as ->.
    { clear - R. revert r m' rest R.
      induction ps as [|q ps IH]; intros r m' rest R; simpl in R.
      - inversion R. reflexivity.
      - destruct (take_class _ (width q) r) as [[g r']|] eqn:T; [|discriminate].
        apply take_class_spec in T. destruct T as (-> & _ & _).
        destruct (match_pieces ci ps r') as [[m2 rest2]|] eqn:R2; [|discriminate].
        inversion R. subst. apply IH in R2. subst.
        now rewrite <- app_assoc. }
    exists g, m'. auto.
  - intros (g & m' & -> & L & F & -> & R).
    assert (T : take_class (piece_test ci p) (width p) (g ++ m' ++ rest)
                = Some (g, m' ++ rest)).
    { apply take_class_spec. auto. }
    rewrite T, R. reflexivity.
Qed.

Lemma match_pieces_nil (ci : bool) (s m rest : list ascii) :
  match_pieces ci [] s = Some (m, rest) <-> m = [] /\ s = rest.
Proof.
  simpl. split.
  - intros E. inversion E. auto.
  - intros (-> & ->). reflexivity.
Qed.

(** Upper-casing commutes with matching under the [i] flag. *)
Lemma upper_idempotent (c : ascii) : Text.upper (Text.upper c) = Text.upper c.
Proof. each_ascii c; reflexivity. Qed.

Lemma take_class_upper (cl : list class_item) (n : nat) (s : list ascii) :
  take_class (in_class_i cl) n (map Text.upper s)
  = option_map (fun mr => (map Text.upper (fst mr), map Text.upper (snd mr)))
               (take_class (in_class_i cl) n s).
Proof.
  revert s. induction n as [|n IH]; intros s; simpl; [reflexivity|].
  destruct s as [|c s]; simpl; [reflexivity|].
  unfold in_class_i at 1. rewrite upper_idempotent.
  fold (in_class_i cl c). destruct (in_class_i cl c); [|reflexivity].
  rewrite IH. destruct (take_class (in_class_i cl) n s) as [[m r]|]; reflexivity.
Qed.

Lemma match_pieces_upper (ps : list piece) (s : list ascii) :
  match_pieces true ps (map Text.upper s)
  = option_map (fun mr => (map Text.upper (fst mr), map Text.upper (snd mr)))
               (match_pieces true ps s).
Proof.
  revert s. induction ps as [|p ps IH]; intros s; simpl; [reflexivity|].
  rewrite take_class_upper.
  destruct (take_class (in_class_i (cls p)) (width p) s) as [[m r]|]; simpl;
    [|reflexivity].
  rewrite IH. destruct (match_pieces true ps r) as [[m' r']|]; simpl;
    [|reflexivity].
  now rewrite map_app.
Qed.

Lemma HEX_i_is_hex (c : ascii) : in_class_i HEX c = true <-> is_hex c.
Proof.
  unfold is_hex.
  each_ascii c; vm_compute; split; intros E; try discriminate; try tauto;
    repeat (destruct E as [E|E]; [discriminate E|]); destruct E.
Qed.

Lemma forallb_HEX_i (g : list ascii) :
  forallb (in_class_i HEX) g = true <-> Forall is_hex g.
Proof.
  rewrite forallb_forall, List.Forall_forall. split; intros F c Hc.
  - apply HEX_i_is_hex. auto.
  - apply HEX_i_is_hex. auto.
Qed.

Lemma hyphen_piece (ci : bool) (g : list ascii) :
  length g = 1 -> forallb (piece_test ci (Exactly 1 HYPHEN)) g = true ->
  g = ["-"%char].
Proof.
  intros L F. destruct g as [|c [|d g]]; try discriminate.
  simpl in F. rewrite andb_true_r in F.
  assert (E : Ascii.eqb c "-" = true \/ Ascii.eqb (Text.upper c) "-" = true).
  { destruct ci; simpl in F; unfold in_class_i, in_class in F; simpl in F;
      rewrite orb_false_r in F; auto. }
  destruct E as [E|E].
  - apply Ascii.eqb_eq in E. now subst.
  - revert E. each_ascii c; vm_compute; intros E; try discriminate; reflexivity.
Qed.

End Pieces.

Section UDID.
Context {H : Host}.
Import Regex.

Lemma match_pieces_spec (ci : bool) (ps : list piece) (s m rest : list ascii) :
  match_pieces ci ps s = Some (m, rest) <->
  exists gs, Forall2 (fits ci) ps gs /\ m = concat gs /\ s = m ++ rest.
Proof.
  revert s m rest. induction ps as [|p ps IH]; intros s m rest.
  - rewrite match_pieces_nil. split.
    + intros (-> & ->). exists []. repeat split. constructor.
    + intros (gs & F & -> & ->). inversion F. subst. auto.
  - rewrite match_pieces_cons. split.
    + intros (g & m' & -> & L & F & -> & R).
      apply IH in R. destruct R as (gs & F2 & -> & _).
      exists (g :: gs). split; [constructor; [split|]; assumption|].
      split; [reflexivity|]. now rewrite app_assoc.
    + intros (gs & F & -> & ->). inversion F as [|p' g ps' gs' [L Fg] F2]. subst.
      exists g, (concat gs'). simpl. repeat split; try assumption.
      * now rewrite app_assoc.
      * apply IH. exists gs'. auto.
Qed.

Lemma udidPattern_test_spec (s : string) :
  udidPattern_test s = true <-> udid_shape s.
Proof.
  unfold udidPattern_test, test_anchored, udid_shape. split.
  - destruct (match_pieces true UDID_pieces (Text.chars s)) as [[m rest]|] eqn:E;
      [|discriminate].
    destruct rest; [|discriminate]. intros _.
    apply match_pieces_spec in E. destruct E as (gs & F & -> & E).
    rewrite app_nil_r in E. unfold UDID_pieces in F.
    repeat match goal with
           | F : Forall2 _ (_ :: _) _ |- _ =>
               let g := fresh "g" in let Fg := fresh "F" g in
               inversion F as [|? g ? ? Fg ?]; clear F; subst
           | F : Forall2 _ [] _ |- _ => inversion F; clear F; subst
           end.
    repeat match goal with
           | F : fits true (Exactly 1 HYPHEN) ?g |- _ =>
               let L := fresh "L" in
               destruct F as [L F]; apply (hyphen_piece true g L) in F; subst g
           end.
    repeat match goal with
           | F : fits true (Exactly _ HEX) ?g |- _ =>
               destruct F as [? F]; simpl in F; apply forallb_HEX_i in F
           end.
    simpl in E. rewrite app_nil_r in E.
    eexists _, _, _, _, _. split; [exact E|].
    unfold hex_group. simpl in *. tauto.
  - intros (g1 & g2 & g3 & g4 & g5 & E & (L1 & F1) & (L2 & F2) & (L3 & F3)
            & (L4 & F4) & (L5 & F5)).
    assert (M : match_pieces true UDID_pieces (Text.chars s)
                = Some (Text.chars s, [])).
    { apply match_pieces_spec.
      exists [g1; ["-"%char]; g2; ["-"%char]; g3; ["-"%char]; g4; ["-"%char]; g5].
      split.
      - unfold UDID_pieces.
        repeat constructor; simpl; try assumption; try reflexivity;
          apply forallb_HEX_i; assumption.
      - split; [|now rewrite app_nil_r].
        rewrite E. simpl. now rewrite app_nil_r. }
    now rewrite M.
Qed.

Lemma chars_toUpperCase (s : string) :
  Text.chars (Text.toUpperCase s) = map Text.upper (Text.chars s).
Proof. unfold Text.toUpperCase. apply chars_of_list. Qed.

Lemma udidPattern_test_upper (s : string) :
  udidPattern_test s = true -> udidPattern_test (Text.toUpperCase s) = true.
Proof.
  unfold udidPattern_test, test_anchored.
  rewrite chars_toUpperCase, match_pieces_upper.
  destruct (match_pieces true UDID_pieces (Text.chars s)) as [[m rest]|];
    [|discriminate].
  destruct rest; [reflexivity|discriminate].
Qed.

Lemma toUpperCase_idempotent (s : string) :
  Text.toUpperCase (Text.toUpperCase s) = Text.toUpperCase s.
Proof.
  apply chars_inj. rewrite !chars_toUpperCase, map_map.
  apply map_ext. apply upper_idempotent.
Qed.

(** C7.  [validateUDID] succeeds exactly on the strings of the 8-4-4-4-12
    hexadecimal shape, in either case, and then returns the upper-case
    form; run on its own result it succeeds and returns it unchanged. *)
Theorem validateUDID_normalises :
  forall s : string,
    (udid_shape s <-> exists r, validateUDID (Str s) = Ok r) /\
    (forall r, validateUDID (Str s) = Ok r ->
               r = Text.toUpperCase s /\ validateUDID (Str r) = Ok r).
Proof.
  intros s. unfold validateUDID. split.
  - rewrite <- udidPattern_test_spec.
    destruct (udidPattern_test s); simpl; split; intros E;
      try reflexivity; try discriminate; eauto.
    destruct E as [r E]. discriminate.
  - intros r. destruct (udidPattern_test s) eqn:T; simpl; [|discriminate].
    intros E. inversion E. subst r. split; [reflexivity|].
    rewrite (udidPattern_test_upper s T). simpl.
    now rewrite toUpperCase_idempotent.
Qed.

End UDID.

Lemma validateUDID_normalises_witness :
  validateUDID (H:=Fixture.host) (Str "abcdef01-2345-6789-abcd-ef0123456789")
  = Ok "ABCDEF01-2345-6789-ABCD-EF0123456789" /\
  validateUDID (H:=Fixture.host) (Str "ABCDEF01-2345-6789-ABCD-EF0123456789")
  = Ok "ABCDEF01-2345-6789-ABCD-EF0123456789".
Proof.
  assert (E : validateUDID (H:=Fixture.host) (Str "abcdef01-2345-6789-abcd-ef0123456789")
              = Ok "ABCDEF01-2345-6789-ABCD-EF0123456789") by reflexivity.
  split; [exact E|].
  exact (proj2 (proj2 (validateUDID_normalises (H:=Fixture.host)
                         "abcdef01-2345-6789-abcd-ef0123456789") _ E)).
Defined.

(* ------------------------------------------------------------------ *)
(** ** C8: the platform version of a runtime identifier *)

Section IOSVersion.
Import Regex.














End IOSVersion.



(* ------------------------------------------------------------------ *)
(** ** C6: flattening the accessibility tree *)

Section Traversal.
Context {H : Host}.

Lemma val_ind' (P : val -> Prop) :
  P Undefined -> P Null -> (forall b, P (Bool b)) -> (forall n, P (Num n)) ->
  (forall s, P (Str s)) ->
  (forall items, Forall P items -> P (Arr items)) ->
  (forall fs, Forall (fun kv => P (snd kv)) fs -> P (Obj fs)) ->
  forall v, P v.
Proof.
  intros HU HN HB HNum HS HA HO.
  fix IH 1.
  intros [| |b|n|s|items|fs];
    [exact HU|exact HN|apply HB|apply HNum|apply HS| |].
  - apply HA. induction items as [|v items IHl]; constructor;
      [apply IH|exact IHl].
  - apply HO. induction fs as [|[k v] fs IHl]; constructor;
      [apply IH|exact IHl].
Qed.

Lemma push_if_labelled_spec (fs : node) (els : list Element) :
  push_if_labelled (element_of fs) els = els ++ flattened [fs].
Proof.
  unfold push_if_labelled, flattened, carries. simpl.
  destruct (truthy (assoc "AXLabel" fs) || truthy (assoc "AXUniqueId" fs));
    simpl; [reflexivity|now rewrite app_nil_r].
Qed.

(** The two equations of [extractElements], as the source reads. *)
Lemma extractElements_object (fs : node) (els : list Element) :
  extractElements (Obj fs) els
  = match assoc "children" fs with
    | Arr cs => extractElements (Arr cs) (push_if_labelled (element_of fs) els)
    | _ => push_if_labelled (element_of fs) els
    end.
Proof.
  cbn -[String.eqb push_if_labelled element_of assoc].
  generalize (push_if_labelled (element_of fs) els). intros els'.
  induction fs as [|[k v] fs IH]; [reflexivity|].
  cbn -[String.eqb]. destruct (String.eqb "children" k); [|exact IH].
  destruct v; reflexivity.
Qed.

Lemma extractElements_array (items : list val) (els : list Element) :
  extractElements (Arr items) els = fold_left (fun els v => visit v els) items els.
Proof.
  cbn -[String.eqb push_if_labelled element_of assoc]. revert els.
  induction items as [|v items IH]; intros els; [reflexivity|].
  cbn -[String.eqb push_if_labelled element_of assoc].
  rewrite <- IH. destruct v; reflexivity.
Qed.

Lemma extractElements_other (v : val) (els : list Element) :
  Array_isArray v = false -> extractElements v els = visit v els.
Proof. destruct v; simpl; try reflexivity. discriminate. Qed.

Lemma flattened_app (a b : list node) :
  flattened (a ++ b) = flattened a ++ flattened b.
Proof. unfold flattened. now rewrite List.filter_app, map_app. Qed.

Lemma assoc_found (k : string) (fs : node) :
  assoc k fs = Undefined \/ exists k', In (k', assoc k fs) fs.
Proof.
  induction fs as [|[k' v] fs IH]; simpl; [auto|].
  destruct (String.eqb k k').
  - right. exists k'. auto.
  - destruct IH as [E|[k'' I]]; [auto|]. right. exists k''. auto.
Qed.

(** Every value has a traversal, and visiting it appends the labelled
    nodes of that traversal, in order. *)
Lemma visit_spec (v : val) :
  (forall els, exists ns, visits v ns /\ visit v els = els ++ flattened ns) /\
  (forall items, v = Arr items ->
     forall els, exists ns, forest_visits items ns /\
                            extractElements v els = els ++ flattened ns).
Proof.
  induction v as [| |b|n|s|items IH|fs IH] using val_ind';
    try (split; [intros els; exists []; split;
                 [apply visits_other; intros fs; discriminate
                 |simpl; now rewrite app_nil_r]
                |intros items E; discriminate]).
  - split.
    + intros els. exists []. split;
        [apply visits_other; intros fs; discriminate
        |simpl; now rewrite app_nil_r].
    + intros items' E els. inversion E. subst items'. clear E.
      rewrite extractElements_array. revert els.
      induction IH as [|v items [Hv _] _ IHl]; intros els.
      * exists []. split; [constructor|]. simpl. now rewrite app_nil_r.
      * simpl. destruct (Hv els) as (n1 & V1 & E1).
        destruct (IHl (visit v els)) as (n2 & V2 & E2).
        exists (n1 ++ n2). split; [now constructor|].
        rewrite E2, E1, flattened_app. now rewrite app_assoc.
  - split; [|intros items E; discriminate].
    intros els. change (visit (Obj fs) els) with (extractElements (Obj fs) els).
    rewrite extractElements_object, push_if_labelled_spec.
    destruct (assoc "children" fs) as [| |b|n|s|cs|gs] eqn:C;
      try (exists [fs]; split;
           [apply visits_object; rewrite C; now apply children_absent
           |reflexivity]).
    destruct (assoc_found "children" fs) as [E|[k' I]]; [congruence|].
    rewrite C in I. rewrite List.Forall_forall in IH.
    destruct (IH _ I) as [_ R]. cbn [snd] in R.
    destruct (R cs eq_refl (els ++ flattened [fs])) as (ns & F & E).
    exists (fs :: ns). split.
    + apply visits_object. rewrite C. now apply children_array.
    + etransitivity; [exact E|]. change (fs :: ns) with ([fs] ++ ns).
      rewrite flattened_app. now rewrite app_assoc.
Qed.

(** The traversal order is a function of the tree. *)
Lemma visits_deterministic (v : val) :
  (forall n1 n2, visits v n1 -> visits v n2 -> n1 = n2) /\
  (forall n1 n2, children_visits v n1 -> children_visits v n2 -> n1 = n2) /\
  (forall items, v = Arr items ->
     forall n1 n2, forest_visits items n1 -> forest_visits items n2 -> n1 = n2).
Proof.
  induction v as [| |b|n|s|items IH|fs IH] using val_ind';
    try (split; [intros n1 n2 V1 V2; inversion V1; inversion V2; subst;
                 congruence
                |split; [intros n1 n2 V1 V2; inversion V1; inversion V2; subst;
                         congruence
                        |intros items E; discriminate]]).
  - assert (F : forall n1 n2, forest_visits items n1 -> forest_visits items n2
                              -> n1 = n2).
    { induction IH as [|v items (Hv & _ & _) _ IHl]; intros n1 n2 V1 V2.
      - inversion V1. inversion V2. reflexivity.
      - inversion V1 as [|? ? a1 b1 Va1 Vb1]. inversion V2 as [|? ? a2 b2 Va2 Vb2].
        subst. f_equal; auto. }
    split; [|split].
    + intros n1 n2 V1 V2. inversion V1; inversion V2; subst; congruence.
    + intros n1 n2 V1 V2.
      inversion V1 as [? ? F1|? A1]; inversion V2 as [? ? F2|? A2]; subst;
        try discriminate.
      now apply F.
    + intros items' E. inversion E. subst. exact F.
  - split; [|split; [|intros items E; discriminate]].
    + intros n1 n2 V1 V2.
      inversion V1 as [? a1 C1|? N1]; [|exfalso; now apply (N1 fs)].
      inversion V2 as [? a2 C2|? N2]; [|exfalso; now apply (N2 fs)].
      subst. f_equal.
      destruct (assoc_found "children" fs) as [E|[k' I]].
      * rewrite E in C1, C2. inversion C1; inversion C2; subst; congruence.
      * rewrite List.Forall_forall in IH.
        destruct (IH _ I) as (_ & R & _). now apply R.
    + intros n1 n2 V1 V2. inversion V1; inversion V2; subst; congruence.
Qed.

End Traversal.



(* ------------------------------------------------------------------ *)
(** ** C10: sorting the devices *)

Section PureSort.
Context {A : Type} (f : A -> A -> Z) (P : A -> Prop).

Lemma insert_pure_perm (x : A) (l : list A) :
  Permutation (x :: l) (insert_pure f x l).
Proof.
  induction l as [|y l IH]; simpl; [reflexivity|].
  destruct (f x y <=? 0)%Z; [reflexivity|].
  rewrite perm_swap. now apply perm_skip.
Qed.

Lemma sort_pure_perm (l : list A) : Permutation l (sort_pure f l).
Proof.
  induction l as [|x l IH]; simpl; [reflexivity|].
  rewrite <- insert_pure_perm. now apply perm_skip.
Qed.

Lemma sort_pure_Forall (l : list A) : Forall P l -> Forall P (sort_pure f l).
Proof.
  intros F. rewrite List.Forall_forall in *. intros x Hx. apply F.
  apply (Permutation_in x (Permutation_sym (sort_pure_perm l)) Hx).
Qed.

(** On the elements of [P] the comparator is total and transitive. *)
Hypothesis f_total : forall a b, P a -> P b -> (0 < f a b)%Z -> (f b a <= 0)%Z.
Hypothesis f_trans : forall a b c, P a -> P b -> P c ->
                                   (f a b <= 0)%Z -> (f b c <= 0)%Z -> (f a c <= 0)%Z.

Lemma insert_pure_sorted (x : A) (l : list A) :
  P x -> Forall P l -> StronglySorted (before f) l ->
  StronglySorted (before f) (insert_pure f x l).
Proof.
  intros Px. induction l as [|y l IH]; intros Fl S; simpl.
  - repeat constructor.
  - inversion Fl as [|? ? Py Fl']. subst.
    inversion S as [|? ? S' Fy]. subst.
    destruct (f x y <=? 0)%Z eqn:E.
    + apply Z.leb_le in E. constructor; [assumption|].
      constructor; [exact E|].
      rewrite List.Forall_forall in *. intros z Hz.
      apply (f_trans x y z); auto. apply Fy. exact Hz.
    + apply Z.leb_gt in E. constructor; [now apply IH|].
      rewrite List.Forall_forall in *. intros z Hz.
      apply (Permutation_in z (Permutation_sym (insert_pure_perm x l))) in Hz.
      destruct Hz as [<-|Hz]; [now apply f_total|now apply Fy].
Qed.

Lemma sort_pure_sorted (l : list A) :
  Forall P l -> StronglySorted (before f) (sort_pure f l).
Proof.
  induction l as [|x l IH]; intros F; simpl; [constructor|].
  inversion F. subst.
  apply insert_pure_sorted; auto using sort_pure_Forall.
Qed.

(** A comparator that returns on the elements of [P] makes [Array_sort]
    return what the pure sort computes. *)
Lemma sort_insert_pure (cmp : A -> A -> Outcome Z) (x : A) (l : list A) :
  (forall a b, P a -> P b -> cmp a b = Ok (f a b)) ->
  P x -> Forall P l -> sort_insert cmp x l = Ok (insert_pure f x l).
Proof.
  intros C Px. induction l as [|y l IH]; intros F; simpl; [reflexivity|].
  inversion F. subst. rewrite C by assumption. simpl.
  destruct (f x y <=? 0)%Z; [reflexivity|]. now rewrite IH.
Qed.

Lemma Array_sort_pure (cmp : A -> A -> Outcome Z) (l : list A) :
  (forall a b, P a -> P b -> cmp a b = Ok (f a b)) ->
  Forall P l -> Array_sort cmp l = Ok (sort_pure f l).
Proof.
  intros C. induction l as [|x l IH]; intros F; simpl; [reflexivity|].
  inversion F. subst. rewrite IH by assumption. simpl.
  apply sort_insert_pure; auto using sort_pure_Forall.
Qed.

End PureSort.

Lemma StronglySorted_lookup {A} (R : A -> A -> Prop) (l : list A) :
  StronglySorted R l ->
  forall i j a b, i < j -> l !! i = Some a -> l !! j = Some b -> R a b.
Proof.
  induction 1 as [|x l S IH F]; intros i j a b Lt Hi Hj.
  - discriminate.
  - destruct j as [|j]; [lia|]. simpl in Hj. destruct i as [|i].
    + simpl in Hi. inversion Hi. subst.
      rewrite List.Forall_forall in F. apply F.
      apply list_elem_of_In. eapply list_elem_of_lookup_2. exact Hj.
    + simpl in Hi. apply (IH i j); auto. lia.
Qed.

Section SortDevices.
Context {H : Host}.

Lemma compareDevices_named (a b : Device) :
  named a -> named b -> compareDevices a b = Ok (compare_pure a b).
Proof.
  intros [s Ea] [t Eb]. unfold compareDevices, compare_pure, name_text.
  rewrite Ea, Eb. simpl.
  destruct (is_booted a), (is_booted b); reflexivity.
Qed.

(** [localeCompare] is a consistent comparator: it orders any two strings
    and its order is transitive. *)
Hypothesis localeCompare_total :
  forall s t, (0 < localeCompare s t)%Z -> (localeCompare t s <= 0)%Z.
Hypothesis localeCompare_trans :
  forall s t u, (localeCompare s t <= 0)%Z -> (localeCompare t u <= 0)%Z ->
                (localeCompare s u <= 0)%Z.

Lemma compare_pure_total (a b : Device) :
  (0 < compare_pure a b)%Z -> (compare_pure b a <= 0)%Z.
Proof.
  unfold compare_pure.
  destruct (is_booted a), (is_booted b); simpl; try lia;
    apply localeCompare_total.
Qed.

Lemma compare_pure_trans (a b c : Device) :
  (compare_pure a b <= 0)%Z -> (compare_pure b c <= 0)%Z ->
  (compare_pure a c <= 0)%Z.
Proof.
  unfold compare_pure.
  destruct (is_booted a), (is_booted b), (is_booted c); simpl; try lia;
    apply localeCompare_trans.
Qed.

Lemma sortDevices_named (l : list Device) :
  Forall named l ->
  sortDevices l = Ok (sort_pure compare_pure l) /\
  StronglySorted (before compare_pure) (sort_pure compare_pure l).
Proof.
  intros F. split.
  - apply (Array_sort_pure compare_pure named); [|exact F].
    intros a b. apply compareDevices_named.
  - apply (sort_pure_sorted compare_pure named); [| |exact F].
    + intros a b _ _. apply compare_pure_total.
    + intros a b c _ _ _. apply compare_pure_trans.
Qed.

(** Whatever happens, the arrays that existed before the call are left as
    they were. *)
Lemma sortDevices_ref_frame (h : store) (devices : ref) (q : ref) :
  is_Some (h !! q) -> (sortDevices_ref h devices).2 !! q = h !! q.
Proof.
  intros Sq. unfold sortDevices_ref, spread, alloc.
  destruct (h !! devices) as [l|] eqn:E; [|reflexivity].
  assert (N : fresh (dom h) <> q).
  { intros <-. apply elem_of_dom in Sq. now apply is_fresh in Sq. }
  unfold sort_in_place. rewrite lookup_insert_eq.
  destruct (Array_sort compareDevices l) as [l'|e]; simpl.
  - rewrite insert_insert_eq. now rewrite lookup_insert_ne.
  - now rewrite lookup_insert_ne.
Qed.

(** C10.  [sortDevices] leaves every array of the store, its argument among
    them, as it was.  On an array of named devices it returns a reference
    that was not in the store before; the array there is a permutation of
    the argument in which every booted device stands before every device
    that is not booted, and two devices of the same booted status stand in
    the order of [localeCompare] on their names. *)
Theorem sortDevices_ref_spec :
  forall (h : store) (devices : ref) (l : list Device),
    h !! devices = Some l ->
    (sortDevices_ref h devices).2 !! devices = Some l /\
    (forall q, is_Some (h !! q) -> (sortDevices_ref h devices).2 !! q = h !! q) /\
    (Forall named l ->
     exists (sorted : ref) (l' : list Device),
       sortDevices_ref h devices = (Ok sorted, <[sorted := l']> h) /\
       h !! sorted = None /\
       sortDevices l = Ok l' /\
       Permutation l l' /\
       forall i j a b,
         i < j -> l' !! i = Some a -> l' !! j = Some b ->
         (is_booted b = true -> is_booted a = true) /\
         (is_booted a = is_booted b ->
          exists s t, name a = Str s /\ name b = Str t /\
                      (localeCompare s t <= 0)%Z)).
Proof.
  intros h devices l E. split; [|split].
  - rewrite sortDevices_ref_frame by (rewrite E; eauto). exact E.
  - intros q Sq. now apply sortDevices_ref_frame.
  - intros F. destruct (sortDevices_named l F) as [S Sorted].
    exists (fresh (dom h)), (sort_pure compare_pure l).
    assert (Fr : h !! fresh (dom h) = None).
    { apply not_elem_of_dom. apply is_fresh. }
    split; [|split; [exact Fr|split; [exact S|split]]].
    + unfold sortDevices_ref, spread, alloc, sort_in_place. rewrite E.
      rewrite lookup_insert_eq. unfold sortDevices in S. rewrite S.
      now rewrite insert_insert_eq.
    + apply sort_pure_perm.
    + intros i j a b Lt Hi Hj.
      pose proof (StronglySorted_lookup _ _ Sorted i j a b Lt Hi Hj) as B.
      assert (Na : named a /\ named b).
      { pose proof (sort_pure_Forall compare_pure named l F) as F'.
        rewrite List.Forall_forall in F'.
        split; apply F'; apply list_elem_of_In;
          eapply list_elem_of_lookup_2; eassumption. }
      destruct Na as [[s Ea] [t Eb]].
      unfold before, compare_pure, name_text in B. rewrite Ea, Eb in B.
      split.
      * intros Bb. rewrite Bb in B. destruct (is_booted a); [reflexivity|].
        simpl in B. lia.
      * intros Same. exists s, t. split; [exact Ea|]. split; [exact Eb|].
        rewrite Same in B. destruct (is_booted b); simpl in B; exact B.
Qed.

End SortDevices.

(** The collation of the fixture host is a consistent comparator. *)
Lemma ascii_compare_N (a b : ascii) :
  Ascii.compare a b = N.compare (N_of_ascii a) (N_of_ascii b).
Proof. reflexivity. Qed.

Lemma string_compare_trans (s : string) :
  forall t u, String.compare s t <> Gt -> String.compare t u <> Gt ->
              String.compare s u <> Gt.
Proof.
  induction s as [|a s IH]; intros [|b t] [|c u]; simpl; try congruence.
  rewrite !ascii_compare_N.
  destruct (N.compare_spec (N_of_ascii a) (N_of_ascii b)) as [Eab|Lab|Gab];
    destruct (N.compare_spec (N_of_ascii b) (N_of_ascii c)) as [Ebc|Lbc|Gbc];
    try congruence.
  - rewrite Eab, Ebc, N.compare_refl. apply IH.
  - intros _ _. rewrite Eab. apply N.compare_lt_iff in Lbc.
    rewrite Lbc. discriminate.
  - intros _ _. rewrite <- Ebc. apply N.compare_lt_iff in Lab.
    rewrite Lab. discriminate.
  - intros _ _.
    assert (L : (N_of_ascii a < N_of_ascii c)%N) by lia.
    apply N.compare_lt_iff in L. rewrite L. discriminate.
Qed.

Lemma collate_total (s t : string) :
  (0 < Fixture.collate s t)%Z -> (Fixture.collate t s <= 0)%Z.
Proof.
  unfold Fixture.collate. rewrite (String.compare_antisym t s).
  destruct (String.compare s t); simpl; lia.
Qed.

Lemma collate_trans (s t u : string) :
  (Fixture.collate s t <= 0)%Z -> (Fixture.collate t u <= 0)%Z ->
  (Fixture.collate s u <= 0)%Z.
Proof.
  unfold Fixture.collate. intros A B.
  assert (C : String.compare s u <> Gt).
  { apply (string_compare_trans s t u).
    - destruct (String.compare s t); [discriminate|discriminate|lia].
    - destruct (String.compare t u); [discriminate|discriminate|lia]. }
  destruct (String.compare s u); [lia|lia|congruence].
Qed.

Lemma sortDevices_ref_spec_witness :
  (sortDevices_ref fixture_store 7).2 !! 7 = Some fixture_devices /\
  exists (sorted : nat) (l' : list (@Device Fixture.host)),
    sortDevices_ref fixture_store 7 = (Ok sorted, <[sorted := l']> fixture_store) /\
    fixture_store !! sorted = None /\
    sortDevices fixture_devices = Ok l' /\
    l' = [fixture_device "iPad Air" "Booted"; fixture_device "Apple TV" "Shutdown";
          fixture_device "iPhone 15" "Shutdown"].
Proof.
  assert (E : fixture_store !! 7 = Some fixture_devices) by reflexivity.
  assert (F : Forall (named (H:=Fixture.host)) fixture_devices).
  { repeat constructor; eexists; reflexivity. }
  destruct (sortDevices_ref_spec (H:=Fixture.host) collate_total collate_trans
              fixture_store 7 fixture_devices E) as (Same & _ & Sorted).
  split; [exact Same|].
  destruct (Sorted F) as (sorted & l' & Run & New & Val & _).
  exists sorted, l'. split; [exact Run|]. split; [exact New|].
  split; [exact Val|].
  assert (V : sortDevices fixture_devices
              = Ok [fixture_device "iPad Air" "Booted";
                    fixture_device "Apple TV" "Shutdown";
                    fixture_device "iPhone 15" "Shutdown"]) by reflexivity.
  rewrite V in Val. now inversion Val.
Defined.

(* ------------------------------------------------------------------ *)
(** ** The probe for the booted device *)

Section Probe.
Context {H : Host}.
Import Regex.

Lemma executeSafeCommand_probe (w : World) :
  exists o, executeSafeCommand "xcrun" probe_args w = (o, w ++ [probe_call]).
Proof.
  pose proof (executeSafeCommand_world "xcrun" probe_args w eq_refl) as W.
  destruct (executeSafeCommand "xcrun" probe_args w) as [o w'].
  exists o. simpl in W. now rewrite W.
Qed.

(** Neither probe throws; each makes exactly one call. *)
Lemma isSimulatorBooted_run (w : World) :
  exists b, isSimulatorBooted w = (Ok b, w ++ [probe_call]).
Proof.
  unfold isSimulatorBooted, try_catch, bind.
  destruct (executeSafeCommand_probe w) as [[devices|e] E]; rewrite E;
    eexists; reflexivity.
Qed.

Lemma getBootedUDID_run (w : World) :
  exists u, getBootedUDID w = (Ok u, w ++ [probe_call]).
Proof.
  unfold getBootedUDID, try_catch, bind.
  destruct (executeSafeCommand_probe w) as [[output|e] E]; rewrite E;
    eexists; reflexivity.
Qed.

Lemma getBootedUDID_matches (w w' : World) (u : string) :
  getBootedUDID w = (Ok (Some u), w') -> exists output, match_udid output = Some u.
Proof.
  unfold getBootedUDID, try_catch, bind.
  destruct (executeSafeCommand "xcrun" probe_args w) as [[output|e] w1].
  - unfold ret. intros E. inversion E. eauto.
  - unfold ret. discriminate.
Qed.

Lemma HEX_upper_only : upper_only HEX.
Proof. intros c. each_ascii c; vm_compute; intros E; try discriminate; reflexivity. Qed.

Lemma HYPHEN_upper_only : upper_only HYPHEN.
Proof. intros c. each_ascii c; vm_compute; intros E; try discriminate; reflexivity. Qed.

Lemma fits_upper_only (p : piece) (g : list ascii) :
  upper_only (cls p) -> fits false p g -> fits true p g /\ map Text.upper g = g.
Proof.
  intros U [L F]. unfold fits, piece_test in *. simpl in *.
  rewrite forallb_forall in F.
  split; [split; [exact L|]|].
  - apply forallb_forall. intros c Hc. unfold in_class_i.
    rewrite (U c (F c Hc)). auto.
  - clear L. induction g as [|c g IH]; simpl; [reflexivity|].
    rewrite (U c (F c (or_introl eq_refl))). f_equal.
    apply IH. intros d Hd. apply F. now right.
Qed.

Lemma fits_all_upper_only (ps : list piece) (gs : list (list ascii)) :
  Forall (fun p => upper_only (cls p)) ps ->
  Forall2 (fits false) ps gs ->
  Forall2 (fits true) ps gs /\ map Text.upper (concat gs) = concat gs.
Proof.
  intros U F. induction F as [|p g ps' gs' Fg F IH].
  - split; [constructor|reflexivity].
  - inversion U as [|? ? Up U']. subst.
    destruct (fits_upper_only p g Up Fg) as [Fg' Ug].
    destruct (IH U') as [F' Ugs].
    split; [now constructor|]. simpl. now rewrite map_app, Ug, Ugs.
Qed.

Lemma search_sound (ci : bool) (ps : list piece) (s m : list ascii) :
  search ci ps s = Some m -> exists s' rest, match_pieces ci ps s' = Some (m, rest).
Proof.
  induction s as [|c s IH]; simpl.
  - destruct (match_pieces ci ps []) as [[m' r]|] eqn:E; [|discriminate].
    intros E'. inversion E'. subst. eauto.
  - destruct (match_pieces ci ps (c :: s)) as [[m' r]|] eqn:E.
    + intros E'. inversion E'. subst. eauto.
    + exact IH.
Qed.

(** What [getBootedUDID] finds passes [validateUDID] unchanged. *)
Lemma match_udid_valid (output u : string) :
  match_udid output = Some u -> validateUDID (Str u) = Ok u /\ u <> "".
Proof.
  unfold match_udid.
  destruct (search false UDID_pieces (Text.chars output)) as [m|] eqn:S;
    [|discriminate].
  simpl. intros E. inversion E. subst u. clear E.
  apply search_sound in S. destruct S as (s' & rest & M).
  apply match_pieces_spec in M. destruct M as (gs & F & -> & _).
  assert (G : Forall2 (fits true) UDID_pieces gs /\
              map Text.upper (concat gs) = concat gs).
  { apply fits_all_upper_only; [|exact F]. unfold UDID_pieces.
    repeat constructor; simpl; auto using HEX_upper_only, HYPHEN_upper_only. }
  destruct G as [F' Up].
  assert (T : udidPattern_test (string_of_list_ascii (concat gs)) = true).
  { unfold udidPattern_test, test_anchored. rewrite chars_of_list.
    assert (M : match_pieces true UDID_pieces (concat gs) = Some (concat gs, [])).
    { apply match_pieces_spec. exists gs. split; [exact F'|].
      split; [reflexivity|now rewrite app_nil_r]. }
    now rewrite M. }
  split.
  - unfold validateUDID. rewrite T. simpl. f_equal.
    unfold Text.toUpperCase. rewrite chars_of_list. now rewrite Up.
  - intros E. rewrite E in T. discriminate T.
Qed.

Lemma booted_udid_or_throw_run (w : World) :
  (exists u, getBootedUDID w = (Ok (Some u), w ++ [probe_call]) /\
             booted_udid_or_throw w = (Ok u, w ++ [probe_call]) /\
             validateUDID (Str u) = Ok u) \/
  (getBootedUDID w = (Ok None, w ++ [probe_call]) /\
   booted_udid_or_throw w
   = (Throw (Error "No simulator is currently booted"), w ++ [probe_call])).
Proof.
  unfold booted_udid_or_throw, bind.
  destruct (getBootedUDID_run w) as [[u|] E]; rewrite E.
  - left. exists u.
    destruct (getBootedUDID_matches _ _ _ E) as [output Mu].
    destruct (match_udid_valid _ _ Mu) as [V NE].
    split; [reflexivity|]. split; [|exact V].
    destruct (String.eqb u "") eqn:Eu; [|reflexivity].
    apply String.eqb_eq in Eu. contradiction.
  - right. split; reflexivity.
Qed.

(** A call of [execute] on the [axe] tool with text output. *)
Lemma execute_axe (args : list string) (w : World) :
  exists o, execute ("axe" :: args) utf8 w = (o, w ++ [axe_call args]).
Proof.
  pose proof (execute_world ("axe" :: args) utf8 w eq_refl) as W.
  destruct (execute ("axe" :: args) utf8 w) as [o w'].
  exists o. simpl in W. now rewrite W.
Qed.

End Probe.

(* ------------------------------------------------------------------ *)
(** ** C9, C3: what [tap] does with its options *)

Section Tap.
Context {H : Host}.





Lemma get_opt_arg (args : val) (k : string) : get_opt args k = Ok (arg args k).
Proof. unfold arg. destruct args; reflexivity. Qed.


End Tap.




(* ------------------------------------------------------------------ *)
(** ** C5: preset gestures *)

Section Gesture.
Context {H : Host}.

Lemma gesture_unfold (preset d : val) (w : World) :
  gesture preset d w
  = match booted_udid_or_throw w with
    | (Ok u, w1) =>
        match validPresets_includes preset with
        | None =>
            (Throw (Error ("Invalid gesture preset. Valid options: "
                             +:+ String.concat ", " validPresets)), w1)
        | Some p =>
            match validateUDID (Str u) with
            | Ok vu =>
                match push_duration d ["axe"; "gesture"; p; "--udid"; vu] with
                | Ok args =>
                    match execute args utf8 w1 with
                    | (Ok result, w2) =>
                        (Ok (stdout_or result ("Gesture " +:+ p +:+ " completed")), w2)
                    | (Throw e, w2) => (Throw e, w2)
                    end
                | Throw e => (Throw e, w1)
                end
            | Throw e => (Throw e, w1)
            end
        end
    | (Throw e, w1) => (Throw e, w1)
    end.
Proof.
  unfold gesture, bind, lift.
  destruct (booted_udid_or_throw w) as [[u|e] w1]; [|reflexivity].
  destruct (validPresets_includes preset); [|reflexivity].
  destruct (validateUDID (Str u)); [|reflexivity].
  destruct (push_duration d _); reflexivity.
Qed.

Lemma push_duration_undefined (args : list string) :
  push_duration Undefined args = Ok args.
Proof. reflexivity. Qed.

Lemma validPresets_includes_In (p : string) :
  In p validPresets -> validPresets_includes (Str p) = Some p.
Proof.
  intros I. unfold validPresets_includes.
  assert (E : existsb (String.eqb p) validPresets = true).
  { apply existsb_exists. exists p. split; [exact I|apply String.eqb_refl]. }
  now rewrite E.
Qed.

(** C5, as the code has it.  A preset outside the closed set of eight makes
    [gesture] throw; the probe for the booted device has run by then, and
    it is the only call made: the [axe] tool is not run.  For a preset of
    the set, no duration, and a booted device [u], [gesture] runs the
    probe and then calls [execute] once, on the vector [axe gesture <preset>
    --udid u], which carries no duration flag. *)
Theorem gesture_presets :
  forall (w : World),
    (forall preset d : val,
        validPresets_includes preset = None ->
        exists e, gesture preset d w = (Throw e, w ++ [probe_call])) /\
    (forall (p u : string) (w1 : World),
        In p validPresets ->
        getBootedUDID w = (Ok (Some u), w1) ->
        w1 = w ++ [probe_call] /\
        gesture (Str p) Undefined w
        = bind (execute ["axe"; "gesture"; p; "--udid"; u] utf8)
               (fun result =>
                  ret (stdout_or result ("Gesture " +:+ p +:+ " completed"))) w1 /\
        snd (gesture (Str p) Undefined w)
        = w ++ [probe_call; axe_call ["gesture"; p; "--udid"; u]]).
Proof.
  intros w. split.
  - intros preset d N. rewrite gesture_unfold.
    destruct (booted_udid_or_throw_run w) as [(u & G & E & V)|(_ & E)]; rewrite E.
    + rewrite N. eauto.
    + eauto.
  - intros p u w1 I G.
    destruct (booted_udid_or_throw_run w) as [(u' & G' & E & V)|(G' & E)];
      rewrite G' in G; inversion G; subst.
    split; [reflexivity|].
    assert (R : gesture (Str p) Undefined w
                = bind (execute ["axe"; "gesture"; p; "--udid"; u] utf8)
                       (fun result =>
                          ret (stdout_or result ("Gesture " +:+ p +:+ " completed")))
                       (w ++ [probe_call])).
    { rewrite gesture_unfold, E, (validPresets_includes_In p I), V.
      unfold bind. rewrite push_duration_undefined.
      destruct (execute _ utf8 (w ++ [probe_call])) as [[r|e] w2]; reflexivity. }
    split; [exact R|].
    rewrite R. unfold bind.
    destruct (execute_axe ["gesture"; p; "--udid"; u] (w ++ [probe_call]))
      as [[r|e] X]; rewrite X; simpl; now rewrite <- app_assoc.
Qed.

End Gesture.

(** C5 (counterexample).  [gesture("diagonal", {})] throws, yet the executor
    has been called by then: the log, empty before, holds the probe. *)
Lemma invalid_gesture_has_called_the_gateway :
  gesture (H:=Fixture.host) (Str "diagonal") Undefined []
  = (Throw (Error ("Invalid gesture preset. Valid options: "
                     +:+ "scroll-up, scroll-down, scroll-left, scroll-right, "
                     +:+ "swipe-from-left-edge, swipe-from-right-edge, "
                     +:+ "swipe-from-top-edge, swipe-from-bottom-edge")),
     [probe_call]) /\
  [probe_call] <> [].
Proof. split; [vm_compute; reflexivity|discriminate]. Qed.

Lemma gesture_presets_witness :
  (exists e, gesture (H:=Fixture.host) (Str "diagonal") Undefined []
             = (Throw e, [probe_call])) /\
  snd (gesture (H:=Fixture.host) (Str "scroll-up") Undefined [])
  = [probe_call; axe_call ["gesture"; "scroll-up"; "--udid"; Fixture.the_udid]].
Proof.
  destruct (gesture_presets (H:=Fixture.host) []) as [Bad Good].
  split.
  - apply Bad. reflexivity.
  - assert (I : In "scroll-up" validPresets) by (simpl; tauto).
    assert (G : getBootedUDID (H:=Fixture.host) []
                = (Ok (Some Fixture.the_udid), [probe_call])) by reflexivity.
    exact (proj2 (proj2 (Good "scroll-up" Fixture.the_udid [probe_call] I G))).
Defined.

(* ------------------------------------------------------------------ *)
(** ** C4: nothing is thrown across the dispatch boundary *)

Lemma returns_ret {A} (a : A) (Q : A -> Prop) : Q a -> returns (ret a) Q.
Proof. intros q w a' w' E. inversion E. now subst. Qed.

Lemma returns_bind {A B} (m : M A) (k : A -> M B) (Q : B -> Prop) :
  (forall a, returns (k a) Q) -> returns (bind m k) Q.
Proof.
  intros K w b w'. unfold bind. destruct (m w) as [[a|e] w1]; [|discriminate].
  apply K.
Qed.

Lemma error_response_well_formed (e : exn) (context : string) :
  well_formed (createErrorResponse e context).
Proof. left. exists context, (message e). reflexivity. Qed.

Lemma text_response_well_formed (text : string) :
  well_formed (createTextResponse text).
Proof. right. left. exists text. reflexivity. Qed.

Create HintDb tools.
#[local] Hint Resolve error_response_well_formed text_response_well_formed : tools.

Ltac step_returns :=
  repeat first
    [ apply returns_bind; intros ?
    | apply returns_ret
    | match goal with
      | |- returns (if ?c then _ else _) _ => destruct c
      end
    | progress cbv zeta ].

Section Dispatch.
Context {H : Host} {P : Presentation}.

Lemma Tool_execute_is_try_catch (t : Tool) (args : val) :
  Tool_execute t args
  = try_catch (Tool_try t args)
      (fun error => ret (createErrorResponse error (catch_context t))).
Proof. destruct t; reflexivity. Qed.

Lemma Tool_try_returns_well_formed (t : Tool) (args : val) :
  returns (Tool_try t args) well_formed.
Proof.
  destruct t; simpl;
    [unfold ScreenshotTool_try | unfold ListDevicesTool_try
    | unfold TapTool_try | unfold SwipeTool_try | unfold TypeTextTool_try
    | unfold DescribeUITool_try];
    step_returns; auto with tools.
  right. right. eexists _, _, _. reflexivity.
Qed.

(** C4.  [execute] of every tool, on every argument bag and in every state
    of the world, returns a response and never throws.  Whatever its [try]
    block throws is turned into the error shape, with the tool's context
    and the message of what was thrown; what the block returns is returned
    as it is; and every response is of the error shape or of a success
    shape. *)
Theorem Tool_execute_never_throws :
  forall (t : Tool) (args : val) (w : World),
    exists (r : ToolResponse) (w' : World),
      Tool_execute t args w = (Ok r, w') /\
      well_formed r /\
      (forall e w1, Tool_try t args w = (Throw e, w1) ->
         w' = w1 /\
         r = {| content := [TextPart (catch_context t +:+ ": " +:+ message e)];
                isError := Some true |}) /\
      (forall r0 w1, Tool_try t args w = (Ok r0, w1) -> w' = w1 /\ r = r0).
Proof.
  intros t args w. rewrite Tool_execute_is_try_catch. unfold try_catch.
  pose proof (Tool_try_returns_well_formed t args w) as W.
  destruct (Tool_try t args w) as [[r|e] w1].
  - exists r, w1. split; [reflexivity|]. split; [now apply (W r w1)|].
    split; [discriminate|]. intros r0 w2 E. inversion E. auto.
  - exists (createErrorResponse e (catch_context t)), w1.
    split; [reflexivity|]. split; [auto with tools|].
    split; [|discriminate]. intros e' w2 E. inversion E. auto.
Qed.

End Dispatch.

Lemma Tool_execute_never_throws_witness :
  Tool_try (H:=Fixture.host) (P:=Fixture.presentation) DescribeUITool Undefined []
  = (Throw (SyntaxError "Unexpected token in JSON"),
     [probe_call; probe_call; axe_call ["describe-ui"; "--udid"; Fixture.the_udid]]) /\
  Tool_execute (H:=Fixture.host) (P:=Fixture.presentation) DescribeUITool Undefined []
  = (Ok {| content := [TextPart "Failed to describe UI: Unexpected token in JSON"];
           isError := Some true |},
     [probe_call; probe_call; axe_call ["describe-ui"; "--udid"; Fixture.the_udid]]).
Proof.
  assert (T : Tool_try (H:=Fixture.host) (P:=Fixture.presentation)
                DescribeUITool Undefined []
              = (Throw (SyntaxError "Unexpected token in JSON"),
                 [probe_call; probe_call;
                  axe_call ["describe-ui"; "--udid"; Fixture.the_udid]]))
    by (vm_compute; reflexivity).
  split; [exact T|].
  destruct (Tool_execute_never_throws (H:=Fixture.host) (P:=Fixture.presentation)
              DescribeUITool Undefined []) as (r & w' & E & _ & C & _).
  destruct (C _ _ T) as [-> ->]. exact E.
Defined.

(* ================================================================== *)
(** * Further properties of the program *)

(* ------------------------------------------------------------------ *)
(** ** The command executor *)

Section Executor.
Context {H : Host}.

(** X1.  A name that is neither [axe] nor [xcrun] nor a property of
    [Object.prototype] is refused by both methods with the error of the
    allow-list, and nothing is spawned. *)
Theorem foreign_names_are_refused :
  forall (name : string) (args : list string) (o : ExecOptions) (w : World),
    name <> "axe" -> name <> "xcrun" -> ~ In name Object_prototype ->
    execute (name :: args) o w
    = (Throw (Error ("Command not allowed: " +:+ name)), w) /\
    executeSafeCommand name args w
    = (Throw (Error ("Command not allowed: " +:+ name)), w).
Proof.
  intros name args o w Na Nx Np.
  assert (E : in_ALLOWED_COMMANDS name = false).
  { destruct (in_ALLOWED_COMMANDS name) eqn:E; [|reflexivity].
    apply in_ALLOWED_COMMANDS_spec in E. tauto. }
  split.
  - now apply execute_refuses.
  - now apply executeSafeCommand_refuses.
Qed.

Lemma check_result_Ok (o : SpawnOptions) (r r' : SpawnResult) (w w' : World) :
  check_result o r w = (Ok r', w') ->
  r' = r /\ w' = w /\ error r = None /\ status r = Some 0%Z.
Proof.
  unfold check_result. destruct (error r); [discriminate|].
  destruct (status r) as [[| |]|]; try discriminate.
  intros E. inversion E. auto.
Qed.

Lemma check_result_Throw (o : SpawnOptions) (r : SpawnResult) (e : exn)
    (w w' : World) :
  check_result o r w = (Throw e, w') ->
  w' = w /\
  (error r = Some e \/
   (error r = None /\ status r <> Some 0%Z /\ e = Error (errorMsg o r))).
Proof.
  unfold check_result. destruct (error r) as [e'|].
  - intros E. inversion E. auto.
  - destruct (status r) as [[| |]|]; intros E; inversion E;
      (split; [reflexivity|right; repeat split; congruence]).
Qed.

(** X2.  [execute] returns only what a process that started and exited with
    status 0 produced, untouched; when it throws after the check, the error
    is the launch error of the process or, on any other status, an error
    whose message is the captured error output or names the status. *)
Theorem execute_result_contract :
  forall (command : list string) (o : ExecOptions) (w : World),
    in_ALLOWED_COMMANDS (commandName_of command) = true ->
    let c := {| file := ALLOWED_COMMANDS_get (commandName_of command);
                argv := tl command;
                options := merge_options defaultOptions o |} in
    let r := spawnSync_result w c in
    (succeeded r = true -> execute command o w = (Ok r, w ++ [c])) /\
    (succeeded r = false ->
       exists e, execute command o w = (Throw e, w ++ [c]) /\
                 (error r = Some e \/
                  (error r = None /\
                   e = Error (errorMsg (merge_options defaultOptions o) r)))).
Proof.
  intros command o w A c r. rewrite (execute_past_check command o w A).
  fold c. fold r. unfold succeeded, check_result.
  destruct (error r) as [e|].
  - split; [discriminate|]. intros _. exists e. auto.
  - destruct (status r) as [[| |]|]; split; intros S; try discriminate;
      try reflexivity; eexists; split; try reflexivity; auto.
Qed.

(** X3.  Neither probe ever throws, and each makes exactly one call.  When
    that call succeeds, [isSimulatorBooted] tells whether the output mentions
    [Booted] and [getBootedUDID] returns the first identifier in it; when it
    fails in any way, they return [false] and [null]. *)
Theorem probes_swallow_failures :
  forall (w : World),
    let r := spawnSync_result w probe_call in
    isSimulatorBooted w
    = (Ok (if succeeded r then Text.includes (stdout r) "Booted" else false),
       w ++ [probe_call]) /\
    getBootedUDID w
    = (Ok (if succeeded r then Regex.match_udid (stdout r) else None),
       w ++ [probe_call]).
Proof.
  intros w r. unfold isSimulatorBooted, getBootedUDID, try_catch, bind.
  rewrite (executeSafeCommand_past_check "xcrun" probe_args w eq_refl).
  cbv zeta. change (ALLOWED_COMMANDS_get "xcrun") with (Own "/usr/bin/xcrun").
  fold probe_call. fold r. unfold succeeded, check_result.
  destruct (error r) as [e|]; [split; reflexivity|].
  destruct (status r) as [[| |]|]; split; reflexivity.
Qed.

(** X4.  The identifier [getBootedUDID] returns has the 8-4-4-4-12 shape, is
    in upper case, and passes [validateUDID] unchanged: the re-validation the
    operations run on it cannot fail. *)
Theorem booted_udid_is_canonical :
  forall (w w' : World) (u : string),
    getBootedUDID w = (Ok (Some u), w') ->
    udid_shape u /\ Text.toUpperCase u = u /\ validateUDID (Str u) = Ok u.
Proof.
  intros w w' u G.
  destruct (getBootedUDID_matches w w' u G) as [output Mu].
  destruct (match_udid_valid output u Mu) as [V _].
  unfold validateUDID in V.
  destruct (Regex.udidPattern_test u) eqn:T; [|discriminate].
  simpl in V. inversion V as [U]. rewrite U.
  split; [now apply udidPattern_test_spec|]. split; [exact U|].
  unfold validateUDID. rewrite T. simpl. now rewrite U.
Qed.

End Executor.

(* ------------------------------------------------------------------ *)
(** ** What reaches the executor *)

Lemma only_calls_ret {A} (Q : Call -> Prop) (a : A) : only_calls Q (ret a).
Proof. intros w. exists []. simpl. now rewrite app_nil_r. Qed.

Lemma only_calls_throw {A} (Q : Call -> Prop) (e : exn) :
  only_calls Q (throw (A:=A) e).
Proof. intros w. exists []. simpl. now rewrite app_nil_r. Qed.

Lemma only_calls_lift {A} (Q : Call -> Prop) (o : Outcome A) :
  only_calls Q (lift o).
Proof. intros w. exists []. simpl. now rewrite app_nil_r. Qed.

Lemma only_calls_bind {A B} (Q : Call -> Prop) (m : M A) (k : A -> M B) :
  only_calls Q m -> (forall a, only_calls Q (k a)) -> only_calls Q (bind m k).
Proof.
  intros Hm Hk w. unfold bind. destruct (Hm w) as (c1 & E1 & F1).
  destruct (m w) as [[a|e] w1]; simpl in E1; subst w1.
  - destruct (Hk a (w ++ c1)) as (c2 & E2 & F2).
    exists (c1 ++ c2). rewrite E2, app_assoc. split; [reflexivity|].
    apply Forall_app. auto.
  - exists c1. auto.
Qed.

Lemma only_calls_lift_bind {A B} (Q : Call -> Prop) (o : Outcome A)
    (k : A -> M B) :
  (forall a, o = Ok a -> only_calls Q (k a)) -> only_calls Q (bind (lift o) k).
Proof.
  intros Hk w. unfold bind, lift. destruct o as [a|e].
  - apply (Hk a eq_refl).
  - exists []. simpl. now rewrite app_nil_r.
Qed.

Lemma only_calls_try_catch {A} (Q : Call -> Prop) (m : M A) (h : exn -> M A) :
  only_calls Q m -> (forall e, only_calls Q (h e)) -> only_calls Q (try_catch m h).
Proof.
  intros Hm Hh w. unfold try_catch. destruct (Hm w) as (c1 & E1 & F1).
  destruct (m w) as [[a|e] w1]; simpl in E1; subst w1.
  - exists c1. auto.
  - destruct (Hh e (w ++ c1)) as (c2 & E2 & F2).
    exists (c1 ++ c2). rewrite E2, app_assoc. split; [reflexivity|].
    apply Forall_app. auto.
Qed.

Create HintDb calls.
Ltac step_calls :=
  repeat first
    [ solve [auto with calls]
    | match goal with
      | |- only_calls _ (ret _) => apply only_calls_ret
      | |- only_calls _ (throw _) => apply only_calls_throw
      | |- only_calls _ (bind (lift _) _) => apply only_calls_lift_bind; intros ? ?
      | |- only_calls _ (bind _ _) => apply only_calls_bind; [|intros ?]
      | |- only_calls _ (try_catch _ _) => apply only_calls_try_catch; [|intros ?]
      | |- only_calls _ (if ?c then _ else _) => destruct c
      | |- only_calls _ (match ?c with Some _ => _ | None => _ end) => destruct c
      end
    | progress cbv zeta ].

Section Calls.
Context {H : Host}.

Lemma probe_call_allow_listed : allow_listed probe_call.
Proof. split; [left|]; reflexivity. Qed.

Lemma execute_listed (name : string) (args : list string) (o : ExecOptions) :
  name = "axe" \/ name = "xcrun" -> with_shell o = None ->
  only_calls allow_listed (execute (name :: args) o).
Proof.
  intros N S w.
  assert (A : in_ALLOWED_COMMANDS (commandName_of (name :: args)) = true)
    by (destruct N as [-> | ->]; reflexivity).
  rewrite (execute_world (name :: args) o w A).
  eexists [_]. split; [reflexivity|]. constructor; [|constructor].
  split.
  - destruct N as [-> | ->]; [right|left]; reflexivity.
  - simpl. now rewrite S.
Qed.

Lemma isSimulatorBooted_calls : only_calls allow_listed isSimulatorBooted.
Proof.
  intros w. destruct (isSimulatorBooted_run w) as [b E]. rewrite E.
  exists [probe_call]. split; [reflexivity|].
  constructor; [apply probe_call_allow_listed|constructor].
Qed.

Lemma booted_udid_or_throw_calls : only_calls allow_listed booted_udid_or_throw.
Proof.
  intros w. exists [probe_call]. split.
  - destruct (booted_udid_or_throw_run w) as [(u & _ & E & _)|(_ & E)];
      now rewrite E.
  - constructor; [apply probe_call_allow_listed|constructor].
Qed.

Lemma tap_args_head (o : TapOptions) (base args : list string) :
  tap_args o base = Ok args -> exists flags, args = base ++ flags.
Proof.
  unfold tap_args. intros A.
  repeat match type of A with
         | (if ?c then _ else _) = _ => destruct c
         | obind ?m _ = _ => destruct m; simpl in A
         | Ok _ = Ok _ => inversion A; eauto
         | Throw _ = Ok _ => discriminate
         end.
Qed.

Lemma push_duration_flags (d : val) (base args : list string) :
  push_duration d base = Ok args ->
  exists flags, args = base ++ flags /\ duration_flags d flags.
Proof.
  unfold push_duration, duration_flags.
  destruct (is_undefined d); simpl.
  - intros E. inversion E. exists []. rewrite app_nil_r. auto.
  - destruct (validateDuration d) as [v|]; simpl; [|discriminate].
    intros E. inversion E. eexists. split; [reflexivity|]. right. eauto.
Qed.

#[local] Hint Resolve isSimulatorBooted_calls booted_udid_or_throw_calls : calls.

Lemma execute_axe_calls (args : list string) :
  only_calls allow_listed (execute ("axe" :: args) utf8).
Proof. apply execute_listed; [now left|reflexivity]. Qed.

Lemma JSON_parse_or_throw_calls (s : string) :
  only_calls allow_listed (JSON_parse_or_throw s).
Proof.
  unfold JSON_parse_or_throw.
  destruct (JSON_parse s); [apply only_calls_ret|apply only_calls_throw].
Qed.

#[local] Hint Resolve execute_axe_calls JSON_parse_or_throw_calls : calls.

Lemma tap_calls (o : TapOptions) : only_calls allow_listed (tap o).
Proof.
  unfold tap. step_calls.
  match goal with A : tap_args _ _ = Ok _ |- _ =>
    apply tap_args_head in A; destruct A as [flags ->] end.
  apply (execute_axe_calls (["tap"; "--udid"; _] ++ flags)).
Qed.

Lemma swipe_calls (o : SwipeOptions) : only_calls allow_listed (swipe o).
Proof.
  unfold swipe. step_calls.
  match goal with A : push_duration _ _ = Ok _ |- _ =>
    apply push_duration_flags in A; destruct A as (flags & -> & _) end.
  match goal with |- only_calls _ (execute (("axe" :: ?l) ++ flags) utf8) =>
    apply (execute_axe_calls (l ++ flags)) end.
Qed.

Lemma gesture_calls (preset d : val) : only_calls allow_listed (gesture preset d).
Proof.
  unfold gesture. step_calls.
  match goal with A : push_duration _ _ = Ok _ |- _ =>
    apply push_duration_flags in A; destruct A as (flags & -> & _) end.
  match goal with |- only_calls _ (execute (("axe" :: ?l) ++ flags) utf8) =>
    apply (execute_axe_calls (l ++ flags)) end.
Qed.

Lemma typeText_calls (text : val) : only_calls allow_listed (typeText text).
Proof. unfold typeText. step_calls. Qed.

Lemma describeUI_calls : only_calls allow_listed describeUI.
Proof. unfold describeUI. step_calls. Qed.

Lemma getDevices_calls : only_calls allow_listed getDevices.
Proof.
  unfold getDevices. step_calls.
  apply execute_listed; [now right|reflexivity].
Qed.

Lemma takeScreenshot_calls : only_calls allow_listed takeScreenshot.
Proof.
  unfold takeScreenshot. step_calls.
  apply execute_listed; [now right|reflexivity].
Qed.

End Calls.

#[local] Hint Resolve isSimulatorBooted_calls booted_udid_or_throw_calls
  tap_calls swipe_calls gesture_calls typeText_calls describeUI_calls
  getDevices_calls takeScreenshot_calls : calls.

Section ToolCalls.
Context {H : Host} {P : Presentation}.

(** X5.  Whatever the tool, the argument bag and the state of the world,
    every process a tool starts is one of the two allow-listed executables,
    started from its absolute path and without a shell: no argument can make
    a tool reach another program or the inherited names of the allow-list
    object. *)
Theorem tools_start_only_allow_listed_programs :
  forall (t : Tool) (args : val), only_calls allow_listed (Tool_execute t args).
Proof.
  intros t args.
  destruct t; simpl;
    [unfold ScreenshotTool_execute, ScreenshotTool_try
    |unfold ListDevicesTool_execute, ListDevicesTool_try
    |unfold TapTool_execute, TapTool_try
    |unfold SwipeTool_execute, SwipeTool_try
    |unfold TypeTextTool_execute, TypeTextTool_try
    |unfold DescribeUITool_execute, DescribeUITool_try];
    step_calls.
Qed.

End ToolCalls.

(* ------------------------------------------------------------------ *)
(** ** The operations of the simulator service *)

Section Operations.
Context {H : Host}.

Lemma no_device_throws (w : World) :
  fst (getBootedUDID w) = Ok None ->
  booted_udid_or_throw w
  = (Throw (Error "No simulator is currently booted"), w ++ [probe_call]).
Proof.
  intros G. destruct (booted_udid_or_throw_run w) as [(u & G' & _)|(_ & E)].
  - rewrite G' in G. discriminate.
  - exact E.
Qed.

(** X6.  When the probe finds no booted device, each of the five operations
    on the device throws ["No simulator is currently booted"] and makes no
    call besides the probe; its arguments are not even validated. *)
Theorem operations_need_a_booted_device :
  forall (w : World),
    fst (getBootedUDID w) = Ok None ->
    (forall o, stops_at_probe (tap o) w) /\
    (forall o, stops_at_probe (swipe o) w) /\
    (forall preset d, stops_at_probe (gesture preset d) w) /\
    (forall text, stops_at_probe (typeText text) w) /\
    stops_at_probe describeUI w.
Proof.
  intros w G. pose proof (no_device_throws w G) as E.
  unfold stops_at_probe, tap, swipe, gesture, typeText, describeUI, bind.
  rewrite E. repeat split.
Qed.

Lemma validateTypeText_Ok (text : val) (s : string) :
  validateTypeText text = Ok s ->
  text = Str s /\ s <> "" /\ (Text.len s <= 10000)%Z /\ ~ has_denied s.
Proof.
  unfold validateTypeText. destruct text as [| | | |t| |]; try discriminate.
  destruct (Text.len t =? 0)%Z eqn:Z0; [discriminate|].
  destruct (10000 <? Text.len t)%Z eqn:L; [discriminate|].
  destruct (Regex.SHELL_METACHARACTERS_test t) eqn:T; [discriminate|].
  intros E. inversion E. subst t. split; [reflexivity|]. split; [|split].
  - intros ->. discriminate.
  - now apply Z.ltb_ge.
  - intros D. apply SHELL_METACHARACTERS_test_spec in D. congruence.
Qed.

(** X7.  If [typeText] reaches the [axe] tool at all, the text is a string,
    non-empty, within 10000 code units and free of shell metacharacters, and
    it is handed over whole and unchanged, as the single argument after
    [type]. *)
Theorem typeText_passes_the_text_whole :
  forall (text : val) (w : World) (out : Outcome string) (w' : World),
    typeText text w = (out, w') ->
    ((exists e, out = Throw e) /\ w' = w ++ [probe_call]) \/
    (exists u s,
        text = Str s /\ s <> "" /\ (Text.len s <= 10000)%Z /\ ~ has_denied s /\
        w' = w ++ [probe_call; axe_call ["type"; s; "--udid"; u]]).
Proof.
  intros text w out w'. unfold typeText, bind, lift.
  destruct (booted_udid_or_throw_run w) as [(u & G & E & V)|(_ & E)]; rewrite E.
  - destruct (validateTypeText text) as [s|e] eqn:T.
    + rewrite V.
      destruct (execute_axe ["type"; s; "--udid"; u] (w ++ [probe_call]))
        as [[r|e] X]; rewrite X; intros R; inversion R; subst; right;
        exists u, s; destruct (validateTypeText_Ok text s T) as (? & ? & ? & ?);
        rewrite <- app_assoc; auto 10.
    + intros R. inversion R. subst. left. eauto.
  - intros R. inversion R. subst. left. eauto.
Qed.

(** X8.  If [swipe] reaches the [axe] tool, all four coordinates have passed
    [validateCoordinate] against the bounds 0 and 5000, the vector carries
    them in the order start-x, start-y, end-x, end-y followed by the device,
    and it ends with a [--duration] flag exactly when a duration was given,
    which then has passed [validateDuration]. *)
Theorem swipe_invocation :
  forall (o : SwipeOptions) (w : World) (out : Outcome string) (w' : World),
    swipe o w = (out, w') ->
    ((exists e, out = Throw e) /\ w' = w ++ [probe_call]) \/
    (exists u sx sy ex ey flags,
        validateCoordinate (startX o) "startX" (lit 0) (lit 5000) = Ok sx /\
        validateCoordinate (startY o) "startY" (lit 0) (lit 5000) = Ok sy /\
        validateCoordinate (endX o) "endX" (lit 0) (lit 5000) = Ok ex /\
        validateCoordinate (endY o) "endY" (lit 0) (lit 5000) = Ok ey /\
        duration_flags (duration o) flags /\
        w' = w ++ [probe_call;
                   axe_call (["swipe";
                              "--start-x"; number_toString sx;
                              "--start-y"; number_toString sy;
                              "--end-x"; number_toString ex;
                              "--end-y"; number_toString ey;
                              "--udid"; u] ++ flags)]).
Proof.
  intros o w out w'. unfold swipe, bind, lift.
  destruct (booted_udid_or_throw_run w) as [(u & G & E & V)|(_ & E)]; rewrite E;
    [|intros R; inversion R; subst; left; eauto].
  rewrite V.
  destruct (validateCoordinate (startX o) _ _ _) as [sx|];
    [|intros R; inversion R; subst; left; eauto].
  destruct (validateCoordinate (startY o) _ _ _) as [sy|];
    [|intros R; inversion R; subst; left; eauto].
  destruct (validateCoordinate (endX o) _ _ _) as [ex|];
    [|intros R; inversion R; subst; left; eauto].
  destruct (validateCoordinate (endY o) _ _ _) as [ey|];
    [|intros R; inversion R; subst; left; eauto].
  cbv zeta.
  destruct (push_duration (duration o) _) as [args|] eqn:D;
    [|intros R; inversion R; subst; left; eauto].
  apply push_duration_flags in D. destruct D as (flags & -> & DF).
  match goal with |- context [execute (("axe" :: ?l) ++ flags) utf8 ?w1] =>
    destruct (execute_axe (l ++ flags) w1) as [[r|e] X];
    change (execute (("axe" :: l) ++ flags) utf8 w1)
      with (execute ("axe" :: l ++ flags) utf8 w1);
    rewrite X
  end; intros R; inversion R; subst; right;
    exists u, sx, sy, ex, ey, flags; rewrite <- app_assoc; auto 10.
Qed.

(** X9.  If [gesture] with a preset of the closed set reaches the [axe]
    tool, the vector is [gesture <preset> --udid <device>], followed by a
    [--duration] flag exactly when a duration was given, which then has
    passed [validateDuration]. *)
Theorem gesture_invocation :
  forall (p : string) (d : val) (w : World) (out : Outcome string) (w' : World),
    In p validPresets ->
    gesture (Str p) d w = (out, w') ->
    ((exists e, out = Throw e) /\ w' = w ++ [probe_call]) \/
    (exists u flags,
        duration_flags d flags /\
        w' = w ++ [probe_call;
                   axe_call (["gesture"; p; "--udid"; u] ++ flags)]).
Proof.
  intros p d w out w' I. rewrite gesture_unfold.
  destruct (booted_udid_or_throw_run w) as [(u & G & E & V)|(_ & E)]; rewrite E;
    [|intros R; inversion R; subst; left; eauto].
  rewrite (validPresets_includes_In p I), V.
  destruct (push_duration d _) as [args|] eqn:D;
    [|intros R; inversion R; subst; left; eauto].
  apply push_duration_flags in D. destruct D as (flags & -> & DF).
  match goal with |- context [execute (("axe" :: ?l) ++ flags) utf8 ?w1] =>
    destruct (execute_axe (l ++ flags) w1) as [[r|e] X];
    change (execute (("axe" :: l) ++ flags) utf8 w1)
      with (execute ("axe" :: l ++ flags) utf8 w1);
    rewrite X
  end; intros R; inversion R; subst; right;
    exists u, flags; rewrite <- app_assoc; auto.
Qed.

End Operations.

(* ------------------------------------------------------------------ *)
(** ** The identifier validator *)

Section Identifier.
Context {H : Host}.

Lemma SAFE_ID_class_chars (c : ascii) :
  Regex.in_class Regex.SAFE_ID_class c = true <-> In c (Text.chars safe_id_chars).
Proof.
  each_ascii c; vm_compute; split; intros E; try discriminate; try tauto;
    repeat (destruct E as [E|E]; [discriminate E|]); destruct E.
Qed.

Lemma safe_id_char_not_denied (c : ascii) :
  In c (Text.chars safe_id_chars) -> ~ In c (Text.chars denylist).
Proof.
  intros S D. apply SAFE_ID_class_chars in S. revert S D.
  each_ascii c; vm_compute; intros S D; try discriminate;
    repeat (destruct D as [D|D]; [discriminate D|]); destruct D.
Qed.

(** X10.  [validateAccessibilityId] accepts exactly the non-empty strings of
    at most 256 code units made of letters, digits and [_ - . :], and returns
    them unchanged; an accepted identifier therefore holds no shell
    metacharacter. *)
Theorem validateAccessibilityId_spec :
  forall (s : string),
    (validateAccessibilityId (Str s) = Ok s <->
     s <> "" /\ (Text.len s <= 256)%Z /\
     Forall (fun c => In c (Text.chars safe_id_chars)) (Text.chars s)) /\
    (forall v r, validateAccessibilityId v = Ok r -> v = Str r /\ ~ has_denied r).
Proof.
  intros s.
  assert (A : forall t, validateAccessibilityId (Str t) = Ok t <->
                t <> "" /\ (Text.len t <= 256)%Z /\
                Forall (fun c => In c (Text.chars safe_id_chars)) (Text.chars t)).
  { intros t. unfold validateAccessibilityId, Regex.SAFE_ID_PATTERN_test.
    destruct (Text.len t =? 0)%Z eqn:Z0.
    { apply len_zero in Z0. subst t. split; [discriminate|tauto]. }
    assert (NE : t <> "").
    { intros ->. discriminate. }
    destruct (256 <? Text.len t)%Z eqn:L.
    { apply Z.ltb_lt in L. split; [discriminate|]. intros (_ & L' & _). lia. }
    apply Z.ltb_ge in L.
    assert (F : forallb (Regex.in_class Regex.SAFE_ID_class) (Text.chars t) = true
                <-> Forall (fun c => In c (Text.chars safe_id_chars)) (Text.chars t)).
    { rewrite forallb_forall, List.Forall_forall.
      split; intros F c Hc; apply SAFE_ID_class_chars; auto. }
    destruct (Text.chars t) as [|c cs] eqn:C.
    { exfalso. apply NE. apply chars_inj. now rewrite C. }
    destruct (forallb (Regex.in_class Regex.SAFE_ID_class) (c :: cs)) eqn:T; simpl.
    - split; [intros _|reflexivity]. split; [exact NE|]. split; [exact L|].
      now apply F.
    - split; [discriminate|]. intros (_ & _ & F').
      apply F in F'. discriminate. }
  split; [apply A|].
  intros v r E.
  assert (V : v = Str r).
  { unfold validateAccessibilityId in E.
    destruct v as [| | | |t| |]; try discriminate.
    destruct (Text.len t =? 0)%Z; [discriminate|].
    destruct (256 <? Text.len t)%Z; [discriminate|].
    destruct (negb (Regex.SAFE_ID_PATTERN_test t)); [discriminate|].
    now inversion E. }
  split; [exact V|]. subst v. apply A in E. destruct E as (_ & _ & F).
  intros (c & Hc & Hd). rewrite List.Forall_forall in F.
  exact (safe_id_char_not_denied c (F c Hc) Hd).
Qed.

End Identifier.

(* ------------------------------------------------------------------ *)
(** ** More on the accessibility tree *)

Section Elements.
Context {H : Host}.

Lemma flattened_labelled (ns : list node) : Forall labelled (flattened ns).
Proof.
  unfold flattened. apply List.Forall_forall. intros e Hin.
  apply in_map_iff in Hin. destruct Hin as (fs & <- & Hf).
  apply List.filter_In in Hf. exact (proj2 Hf).
Qed.

(** X11.  [extractElements] only appends to the array it is given: called
    with elements already collected, it returns them first and in their
    order, followed by what it returns when started afresh; and every element
    it adds has a truthy label or identifier. *)
Theorem extractElements_appends :
  forall (nodes : val) (els : list Element),
    extractElements nodes els = els ++ extractElements nodes [] /\
    Forall labelled (extractElements nodes []).
Proof.
  intros nodes els.
  destruct (visit_spec nodes) as [N A].
  assert (E : exists ns, (forall acc, extractElements nodes acc = acc ++ flattened ns)).
  { destruct (Array_isArray nodes) eqn:IsA.
    - destruct nodes as [| | | | |items|]; try discriminate.
      destruct (A items eq_refl []) as (ns & F & _). exists ns. intros acc.
      destruct (A items eq_refl acc) as (ns' & F' & E').
      destruct (visits_deterministic (Arr items)) as (_ & _ & D).
      now rewrite (D items eq_refl ns ns' F F').
    - destruct (N []) as (ns & V & _). exists ns. intros acc.
      rewrite (extractElements_other nodes acc IsA).
      destruct (N acc) as (ns' & V' & E').
      destruct (visits_deterministic nodes) as (D & _ & _).
      now rewrite (D ns ns' V V'). }
  destruct E as (ns & E). split.
  - rewrite (E els), (E []). reflexivity.
  - rewrite (E []). apply flattened_labelled.
Qed.

End Elements.

(* ------------------------------------------------------------------ *)
(** ** More on the device list *)

Lemma sort_pure_sorted_id {A} (f : A -> A -> Z) (l : list A) :
  StronglySorted (before f) l -> sort_pure f l = l.
Proof.
  induction 1 as [|x l S IH F]; simpl; [reflexivity|].
  rewrite IH. destruct l as [|y l]; simpl; [reflexivity|].
  inversion F as [|? ? B _]. subst. unfold before in B.
  apply Z.leb_le in B. now rewrite B.
Qed.

Section DeviceList.
Context {H : Host}.

Hypothesis localeCompare_total :
  forall s t, (0 < localeCompare s t)%Z -> (localeCompare t s <= 0)%Z.
Hypothesis localeCompare_trans :
  forall s t u, (localeCompare s t <= 0)%Z -> (localeCompare t u <= 0)%Z ->
                (localeCompare s u <= 0)%Z.

(** X12.  Sorting is idempotent: on devices whose names are strings, what
    [sortDevices] returns is returned unchanged by [sortDevices]. *)
Theorem sortDevices_idempotent :
  forall (l l' : list Device),
    Forall named l -> sortDevices l = Ok l' -> sortDevices l' = Ok l'.
Proof.
  intros l l' F S.
  destruct (sortDevices_named localeCompare_total localeCompare_trans l F)
    as [E Sorted].
  rewrite E in S. inversion S. subst l'. clear S.
  assert (F' : Forall named (sort_pure compare_pure l))
    by (apply sort_pure_Forall; exact F).
  destruct (sortDevices_named localeCompare_total localeCompare_trans _ F')
    as [E' _].
  rewrite E'. f_equal. now apply sort_pure_sorted_id.
Qed.

End DeviceList.

Section ParseDevices.
Context {H : Host}.

Lemma parse_device_object (a : val) (k : string) (fs : node) (acc : list Device) :
  parse_device a k (Obj fs) acc
  = Ok (if kept a fs then acc ++ [device_of k fs] else acc).
Proof.
  unfold parse_device, kept, device_of, get. simpl.
  destruct (truthy a); simpl; [|reflexivity].
  destruct (truthy (assoc "isAvailable" fs)); reflexivity.
Qed.

Lemma for_of_records (a : val) (k : string) (fss : list node) (acc : list Device) :
  for_of (parse_device a k) (map Obj fss) acc
  = Ok (acc ++ map (device_of k) (List.filter (kept a) fss)).
Proof.
  revert acc. induction fss as [|fs fss IH]; intros acc; simpl.
  - now rewrite app_nil_r.
  - rewrite parse_device_object. simpl. rewrite IH.
    destruct (kept a fs); simpl; [|reflexivity].
    now rewrite <- app_assoc.
Qed.

Lemma for_of_table (a : val) (table : list (string * list node))
    (acc : list Device) :
  for_of
    (fun (entry : string * val) devices =>
       let (runtime, deviceList) := entry in
       obind (iterate deviceList)
             (fun items => for_of (parse_device a runtime) items devices))
    (map (fun entry => (fst entry, Arr (map Obj (snd entry)))) table) acc
  = Ok (acc ++ flat_map (fun entry =>
                           map (device_of (fst entry))
                               (List.filter (kept a) (snd entry))) table).
Proof.
  revert acc. induction table as [|[k fss] table IH]; intros acc; simpl.
  - now rewrite app_nil_r.
  - rewrite for_of_records. simpl. rewrite IH. now rewrite <- app_assoc.
Qed.

(** X13.  On a payload whose [devices] property lists, under each runtime,
    an array of records, [parseDevices] returns one device per record, in the
    order of the runtimes and, under a runtime, in the order of its records,
    each carrying the version extracted from its runtime; with a truthy
    [availableOnly] the records whose [isAvailable] is not truthy are left
    out, and only those. *)
Theorem parseDevices_well_formed :
  forall (fields : node) (table : list (string * list node)) (availableOnly : val),
    assoc "devices" fields = devices_object table ->
    parseDevices (Obj fields) availableOnly
    = Ok (flat_map (fun entry =>
                      map (device_of (fst entry))
                          (List.filter (kept availableOnly) (snd entry))) table).
Proof.
  intros fields table a E. unfold parseDevices, get. simpl. rewrite E.
  unfold devices_object. simpl. apply (for_of_table a table []).
Qed.

(** X14.  A payload that is [null] or [undefined] makes [parseDevices]
    throw; any other payload whose [devices] property is missing or falsy
    gives the empty list, whatever the filter. *)
Theorem parseDevices_without_devices :
  forall (availableOnly : val),
    (exists e, parseDevices Null availableOnly = Throw e) /\
    (exists e, parseDevices Undefined availableOnly = Throw e) /\
    (forall data d,
        get data "devices" = Ok d -> truthy d = false ->
        parseDevices data availableOnly = Ok []).
Proof.
  intros a. split; [eexists; reflexivity|]. split; [eexists; reflexivity|].
  intros data d G T. unfold parseDevices. rewrite G. simpl. rewrite T.
  reflexivity.
Qed.

End ParseDevices.

(* ------------------------------------------------------------------ *)
(** ** The registry and the dispatch *)

Section Registry.
Context {T : Type} (name_of : T -> string).

Lemma Map_get_set_eq (k : string) (v : T) (m : list (string * T)) :
  Map_get k (Map_set k v m) = Some v.
Proof.
  induction m as [|[k' v'] m IH]; simpl.
  - now rewrite String.eqb_refl.
  - destruct (String.eqb k k') eqn:E; simpl.
    + now rewrite String.eqb_refl.
    + now rewrite E.
Qed.

Lemma Map_get_set_ne (k k0 : string) (v : T) (m : list (string * T)) :
  k0 <> k -> Map_get k0 (Map_set k v m) = Map_get k0 m.
Proof.
  intros N. induction m as [|[k' v'] m IH]; simpl.
  - apply String.eqb_neq in N. now rewrite N.
  - destruct (String.eqb k k') eqn:E; simpl.
    + apply String.eqb_eq in E. subst k'.
      apply String.eqb_neq in N. now rewrite N.
    + destruct (String.eqb k0 k'); [reflexivity|exact IH].
Qed.

Lemma Map_get_keys (k : string) (m : list (string * T)) :
  Map_get k m <> None <-> In k (keys m).
Proof.
  induction m as [|[k' v'] m IH]; simpl; [tauto|].
  destruct (String.eqb k k') eqn:E.
  - apply String.eqb_eq in E. subst. split; [auto|discriminate].
  - apply String.eqb_neq in E. rewrite IH. split; [auto|].
    intros [E'|I]; [congruence|exact I].
Qed.

Lemma Map_set_keys (k : string) (v : T) (m : list (string * T)) :
  keys (Map_set k v m) = if ToolRegistry_has k m then keys m else keys m ++ [k].
Proof.
  unfold ToolRegistry_has. induction m as [|[k' v'] m IH]; simpl; [reflexivity|].
  destruct (String.eqb k k') eqn:E; simpl.
  - apply String.eqb_eq in E. now subst.
  - rewrite IH. destruct (Map_get k m); reflexivity.
Qed.

(** X15.  The registry behaves as a map keyed by the tool's name.  After
    [register(tool)], [get] of that name returns the tool and [get] of any
    other name is unchanged; registering under a name that is present
    replaces the tool where the name stands and adds no entry, registering
    under a new name appends one; so the names stay distinct; and [has] tells
    exactly whether a name is registered. *)
Theorem registry_is_a_map :
  forall (tool : T) (tools : list (string * T)) (name : string),
    let tools' := ToolRegistry_register name_of tool tools in
    ToolRegistry_get (name_of tool) tools' = Some tool /\
    (name <> name_of tool ->
     ToolRegistry_get name tools' = ToolRegistry_get name tools) /\
    keys tools' = (if ToolRegistry_has (name_of tool) tools
                   then keys tools else keys tools ++ [name_of tool]) /\
    (NoDup (keys tools) -> NoDup (keys tools')) /\
    (ToolRegistry_has name tools = true <-> In name (keys tools)).
Proof.
  intros tool tools name tools'. unfold tools', ToolRegistry_register, ToolRegistry_get.
  split; [apply Map_get_set_eq|]. split; [apply Map_get_set_ne|].
  split; [apply Map_set_keys|]. split.
  - intros ND. rewrite Map_set_keys.
    destruct (ToolRegistry_has (name_of tool) tools) eqn:Hs; [exact ND|].
    apply NoDup_app. split; [exact ND|]. split; [|apply NoDup_singleton].
    intros k Hk Hk'. apply list_elem_of_In in Hk, Hk'.
    destruct Hk' as [<-|[]].
    apply Map_get_keys in Hk. unfold ToolRegistry_has in Hs.
    destruct (Map_get (name_of tool) tools); [discriminate|contradiction].
  - unfold ToolRegistry_has. rewrite <- Map_get_keys.
    destruct (Map_get name tools); split; intros E; try reflexivity;
      try discriminate; congruence.
Qed.

End Registry.

Section Handler.
Context {H : Host} {P : Presentation}.

Lemma Tool_execute_returns (t : Tool) (args : val) (w : World) :
  exists r w', Tool_execute t args w = (Ok r, w') /\ well_formed r.
Proof.
  rewrite Tool_execute_is_try_catch. unfold try_catch.
  pose proof (Tool_try_returns_well_formed t args w) as W.
  destruct (Tool_try t args w) as [[r|e] w1].
  - exists r, w1. split; [reflexivity|]. now apply (W r w1).
  - eexists _, w1. split; [reflexivity|]. auto with tools.
Qed.

(** X16.  The request handler throws exactly when the name is not
    registered, with ["Tool not found: <name>"] and before anything is
    started; for a registered name it returns the well-formed response of that
    tool, run on the arguments or, when those are missing, on an empty
    object.  In the registry the server builds, the registered names are
    [get_screenshot] and [list_devices] and no other. *)
Theorem CallTool_dispatch :
  forall (registry : list (string * Tool)) (toolName : string) (arguments : val)
         (w : World),
    (ToolRegistry_get toolName registry = None ->
     CallTool registry toolName arguments w
     = (Throw (Error ("Tool not found: " +:+ toolName)), w)) /\
    (forall tool, ToolRegistry_get toolName registry = Some tool ->
       CallTool registry toolName arguments w
       = Tool_execute tool (if truthy arguments then arguments else Obj []) w /\
       exists r w', CallTool registry toolName arguments w = (Ok r, w') /\
                    well_formed r) /\
    (ToolRegistry_get toolName toolRegistry <> None <->
     toolName = "get_screenshot" \/ toolName = "list_devices").
Proof.
  intros registry toolName arguments w. split; [|split].
  - intros E. unfold CallTool. now rewrite E.
  - intros tool E. unfold CallTool. rewrite E. split; [reflexivity|].
    apply Tool_execute_returns.
  - rewrite Map_get_keys. simpl. split.
    + intros [E|[E|[]]]; auto.
    + intros [E|E]; auto.
Qed.

Lemma getDevices_world (w : World) : snd (getDevices w) = w ++ [listing_call].
Proof.
  unfold getDevices, bind.
  pose proof (execute_world ["xcrun"; "simctl"; "list"; "devices"; "--json"]
                no_options w eq_refl) as W.
  destruct (execute _ no_options w) as [[r|e] w1]; simpl in W; subst w1;
    [|reflexivity].
  unfold JSON_parse_or_throw. destruct (JSON_parse (stdout r)); reflexivity.
Qed.

(** X17.  [list_devices] needs no booted simulator: whatever the arguments
    and whatever happens, the tool makes exactly one call, the listing
    [xcrun simctl list devices --json], and never the probe. *)
Theorem ListDevicesTool_makes_one_call :
  forall (args : val) (w : World),
    snd (ListDevicesTool_execute args w) = w ++ [listing_call].
Proof.
  intros args w.
  unfold ListDevicesTool_execute, ListDevicesTool_try, try_catch, bind, lift.
  rewrite get_opt_arg.
  pose proof (getDevices_world w) as W.
  destruct (getDevices w) as [[data|e] w1]; simpl in W; subst w1;
    [|reflexivity].
  cbv zeta. destruct (parseDevices data _); [|reflexivity].
  destruct (sortDevices _); [|reflexivity].
  destruct (formatDevices _); reflexivity.
Qed.

(** X18.  The five tools that act on the booted device answer on their own
    when the probe reports no running simulator: the response is the error
    shape with the message ["No iOS Simulator is currently running"], and no
    call besides the probe has been made. *)
Theorem tools_answer_without_a_simulator :
  forall (t : Tool) (args : val) (w : World),
    t <> ListDevicesTool ->
    fst (isSimulatorBooted w) = Ok false ->
    exists context,
      Tool_execute t args w
      = (Ok {| content :=
                 [TextPart (context +:+ ": No iOS Simulator is currently running")];
               isError := Some true |},
         w ++ [probe_call]).
Proof.
  intros t args w NL B.
  destruct (isSimulatorBooted_run w) as [b E]. rewrite E in B.
  simpl in B. inversion B. subst b.
  destruct t; try contradiction; simpl;
    [unfold ScreenshotTool_execute, ScreenshotTool_try
    |unfold TapTool_execute, TapTool_try
    |unfold SwipeTool_execute, SwipeTool_try
    |unfold TypeTextTool_execute, TypeTextTool_try
    |unfold DescribeUITool_execute, DescribeUITool_try];
    unfold try_catch, bind; rewrite E; simpl; eexists; reflexivity.
Qed.

Lemma substring0_length (n : nat) (s : string) :
  n <= String.length s -> String.length (String.substring 0 n s) = n.
Proof.
  revert s. induction n as [|n IH]; intros s L.
  - destruct s; reflexivity.
  - destruct s as [|c s]; simpl in *; [lia|]. rewrite IH; lia.
Qed.

Lemma length_append (s t : string) :
  String.length (s +:+ t) = String.length s + String.length t.
Proof. induction s as [|c s IH]; simpl; [reflexivity|]. now rewrite IH. Qed.

(** X19.  The text [type_text] echoes is never longer than 50 code units: a
    text of at most 50 is echoed as it is, a longer one is cut to its first 47
    code units followed by three dots. *)
Theorem displayText_is_bounded :
  forall (s : string),
    exists t,
      displayText (Str s) = Ok t /\
      (Text.len t <= 50)%Z /\
      ((Text.len s <= 50)%Z -> t = s) /\
      ((50 < Text.len s)%Z ->
       t = Text.substring0 47 s +:+ "..." /\ Text.len t = 50%Z).
Proof.
  intros s. unfold displayText. destruct (50 <? Text.len s)%Z eqn:L.
  - apply Z.ltb_lt in L. eexists. split; [reflexivity|].
    assert (E : Text.len (Text.substring0 47 s +:+ "...") = 50%Z).
    { unfold Text.len, Text.substring0 in *. rewrite length_append.
      rewrite substring0_length by lia. reflexivity. }
    split; [lia|]. split; [lia|]. auto.
  - apply Z.ltb_ge in L. exists s. split; [reflexivity|].
    split; [exact L|]. split; [reflexivity|lia].
Qed.

End Handler.

(* ------------------------------------------------------------------ *)
(** ** The screenshot tool *)

Section Screenshot.
Context {H : Host}.

(** X20.  With a simulator running, the screenshot tool makes one more call,
    the capture with binary output.  If that process exits with status 0, the
    response is its output in base 64 as a PNG image, followed by a text; if
    it cannot be started, the response is the error shape with the launch
    error; and if it exits with any other status, the message is the
    captured error output, empty or not: the status is never reported,
    because the error output is a buffer. *)
Theorem ScreenshotTool_captures :
  forall (args : val) (w : World),
    fst (isSimulatorBooted w) = Ok true ->
    let r := spawnSync_result (w ++ [probe_call]) screenshot_call in
    let w' := w ++ [probe_call; screenshot_call] in
    (succeeded r = true ->
     ScreenshotTool_execute args w
     = (Ok {| content :=
                [ImagePart (base64 (stdout r)) "image/png";
                 TextPart "Here is the current screen of the iOS Simulator."];
              isError := None |}, w')) /\
    (forall e, error r = Some e ->
     ScreenshotTool_execute args w
     = (Ok (createErrorResponse e "Failed to take screenshot"), w')) /\
    (error r = None -> status r <> Some 0%Z ->
     ScreenshotTool_execute args w
     = (Ok (createErrorResponse (Error (stderr r)) "Failed to take screenshot"),
        w')).
Proof.
  intros args w B r w'.
  destruct (isSimulatorBooted_run w) as [b E]. rewrite E in B.
  simpl in B. inversion B. subst b.
  assert (X : takeScreenshot (w ++ [probe_call])
              = match check_result (options screenshot_call) r
                        ((w ++ [probe_call]) ++ [screenshot_call]) with
                | (Ok r', w2) => (Ok (stdout r'), w2)
                | (Throw e, w2) => (Throw e, w2)
                end).
  { unfold takeScreenshot, bind.
    rewrite (execute_past_check
               ["xcrun"; "simctl"; "io"; "booted"; "screenshot"; "-"]
               {| with_encoding := Some None;
                  with_maxBuffer := Some (10 * 1024 * 1024)%Z;
                  with_shell := None |} (w ++ [probe_call]) eq_refl).
    reflexivity. }
  assert (W : (w ++ [probe_call]) ++ [screenshot_call] = w') by
    (unfold w'; now rewrite <- app_assoc).
  unfold ScreenshotTool_execute, ScreenshotTool_try, try_catch, bind.
  rewrite E. change (negb true) with false. cbv beta iota. rewrite X, W.
  unfold check_result, succeeded. split; [|split].
  - destruct (error r); [discriminate|].
    destruct (status r) as [[| |]|]; try discriminate. reflexivity.
  - intros e Ee. rewrite Ee. reflexivity.
  - intros Ee Ns. rewrite Ee.
    destruct (status r) as [[| |]|]; try reflexivity. congruence.
Qed.

End Screenshot.

(* ------------------------------------------------------------------ *)
(** ** The further properties at concrete inputs *)

Lemma foreign_names_are_refused_witness :
  execute (H:=Fixture.host) ["rm"; "-rf"; "/"] no_options []
  = (Throw (Error "Command not allowed: rm"), []) /\
  executeSafeCommand (H:=Fixture.host) "rm" ["-rf"; "/"] []
  = (Throw (Error "Command not allowed: rm"), []).
Proof.
  apply (foreign_names_are_refused (H:=Fixture.host) "rm" ["-rf"; "/"] no_options []).
  - discriminate.
  - discriminate.
  - simpl. intros E. repeat (destruct E as [E|E]; [discriminate E|]). exact E.
Defined.

Lemma execute_result_contract_witness :
  execute (H:=Fixture.host) ["axe"; "describe-ui"] utf8 []
  = (Ok {| error := None; status := Some 0%Z; stdout := ""; stderr := "" |},
     [axe_call ["describe-ui"]]).
Proof.
  exact (proj1 (execute_result_contract (H:=Fixture.host)
                  ["axe"; "describe-ui"] utf8 [] eq_refl) eq_refl).
Defined.

Lemma booted_udid_is_canonical_witness :
  udid_shape Fixture.the_udid /\
  Text.toUpperCase Fixture.the_udid = Fixture.the_udid /\
  validateUDID (H:=Fixture.host) (Str Fixture.the_udid) = Ok Fixture.the_udid.
Proof.
  apply (booted_udid_is_canonical (H:=Fixture.host) [] [probe_call]).
  reflexivity.
Defined.

Lemma operations_need_a_booted_device_witness :
  stops_at_probe (typeText (H:=IdleFixture.host) (Str "hello")) [] /\
  stops_at_probe (describeUI (H:=IdleFixture.host)) [].
Proof.
  destruct (operations_need_a_booted_device (H:=IdleFixture.host) [] eq_refl)
    as (_ & _ & _ & T & D).
  split; [apply T|exact D].
Defined.

Lemma typeText_passes_the_text_whole_witness :
  exists u s,
    hello = Str s /\ s <> "" /\ (Text.len s <= 10000)%Z /\ ~ has_denied s /\
    [probe_call; axe_call ["type"; "hello"; "--udid"; Fixture.the_udid]]
    = [] ++ [probe_call; axe_call ["type"; s; "--udid"; u]].
Proof.
  assert (R : typeText hello []
              = (Ok "Text typed successfully",
                 [probe_call;
                  axe_call ["type"; "hello"; "--udid"; Fixture.the_udid]]))
    by (vm_compute; reflexivity).
  destruct (typeText_passes_the_text_whole (H:=Fixture.host) hello [] _ _ R)
    as [[[e E] _]|W]; [discriminate E|exact W].
Defined.

Lemma swipe_invocation_witness :
  exists u sx sy ex ey flags,
    validateCoordinate (startX fixture_swipe) "startX" (lit 0) (lit 5000) = Ok sx /\
    validateCoordinate (startY fixture_swipe) "startY" (lit 0) (lit 5000) = Ok sy /\
    validateCoordinate (endX fixture_swipe) "endX" (lit 0) (lit 5000) = Ok ex /\
    validateCoordinate (endY fixture_swipe) "endY" (lit 0) (lit 5000) = Ok ey /\
    duration_flags (duration fixture_swipe) flags /\
    [probe_call;
     axe_call ["swipe"; "--start-x"; "200"; "--start-y"; "600";
               "--end-x"; "200"; "--end-y"; "100";
               "--udid"; Fixture.the_udid; "--duration"; "1"]]
    = [] ++ [probe_call;
             axe_call (["swipe";
                        "--start-x"; number_toString sx;
                        "--start-y"; number_toString sy;
                        "--end-x"; number_toString ex;
                        "--end-y"; number_toString ey;
                        "--udid"; u] ++ flags)].
Proof.
  assert (R : swipe fixture_swipe []
              = (Ok "Swipe completed",
                 [probe_call;
                  axe_call ["swipe"; "--start-x"; "200"; "--start-y"; "600";
                            "--end-x"; "200"; "--end-y"; "100";
                            "--udid"; Fixture.the_udid; "--duration"; "1"]]))
    by (vm_compute; reflexivity).
  destruct (swipe_invocation (H:=Fixture.host) fixture_swipe [] _ _ R)
    as [[[e E] _]|W]; [discriminate E|exact W].
Defined.

Lemma gesture_invocation_witness :
  exists u flags,
    duration_flags (fixture_number 2) flags /\
    [probe_call;
     axe_call ["gesture"; "scroll-down"; "--udid"; Fixture.the_udid;
               "--duration"; "2"]]
    = [] ++ [probe_call;
             axe_call (["gesture"; "scroll-down"; "--udid"; u] ++ flags)].
Proof.
  assert (I : In "scroll-down" validPresets) by (simpl; tauto).
  assert (R : gesture (H:=Fixture.host) (Str "scroll-down") (fixture_number 2) []
              = (Ok "Gesture scroll-down completed",
                 [probe_call;
                  axe_call ["gesture"; "scroll-down"; "--udid"; Fixture.the_udid;
                            "--duration"; "2"]]))
    by (vm_compute; reflexivity).
  destruct (gesture_invocation (H:=Fixture.host) "scroll-down" (fixture_number 2)
              [] _ _ I R) as [[[e E] _]|W]; [discriminate E|exact W].
Defined.

Lemma validateAccessibilityId_spec_witness :
  validateAccessibilityId (H:=Fixture.host) (Str "login.button-1") = Ok "login.button-1" /\
  ~ has_denied "login.button-1".
Proof.
  destruct (validateAccessibilityId_spec (H:=Fixture.host) "login.button-1")
    as [A S].
  assert (E : validateAccessibilityId (H:=Fixture.host) (Str "login.button-1")
              = Ok "login.button-1").
  { apply A. split; [discriminate|]. split; [vm_compute; discriminate|].
    assert (F : forallb (Regex.in_class Regex.SAFE_ID_class)
                  (Text.chars "login.button-1") = true) by (vm_compute; reflexivity).
    rewrite forallb_forall in F. apply List.Forall_forall. intros c Hc.
    apply SAFE_ID_class_chars. now apply F. }
  split; [exact E|]. exact (proj2 (S _ _ E)).
Defined.

Lemma sortDevices_idempotent_witness :
  sortDevices [fixture_device "iPad Air" "Booted";
               fixture_device "Apple TV" "Shutdown";
               fixture_device "iPhone 15" "Shutdown"]
  = Ok [fixture_device "iPad Air" "Booted"; fixture_device "Apple TV" "Shutdown";
        fixture_device "iPhone 15" "Shutdown"].
Proof.
  apply (sortDevices_idempotent (H:=Fixture.host) collate_total collate_trans
           fixture_devices).
  - repeat constructor; eexists; reflexivity.
  - reflexivity.
Defined.

Lemma parseDevices_well_formed_witness :
  parseDevices (H:=Fixture.host) fixture_devicesData (Bool true)
  = Ok [device_of "com.apple.CoreSimulator.SimRuntime.iOS-17-0" fixture_record].
Proof.
  apply (parseDevices_well_formed (H:=Fixture.host)
           [("devices", devices_object fixture_table)] fixture_table (Bool true)).
  reflexivity.
Defined.

Lemma parseDevices_without_devices_witness :
  parseDevices empty_payload (Bool false) = Ok [].
Proof.
  destruct (parseDevices_without_devices (H:=Fixture.host) (Bool false))
    as (_ & _ & E).
  apply (E empty_payload Undefined); reflexivity.
Defined.

Lemma registry_is_a_map_witness :
  ToolRegistry_get "get_screenshot"
    (ToolRegistry_register tool_name ScreenshotTool
       [("get_screenshot", ListDevicesTool)])
  = Some ScreenshotTool /\
  ToolRegistry_get "list_devices"
    (ToolRegistry_register tool_name ScreenshotTool
       [("list_devices", ListDevicesTool)])
  = Some ListDevicesTool /\
  NoDup (keys (ToolRegistry_register tool_name ScreenshotTool
                 [("list_devices", ListDevicesTool)])).
Proof.
  destruct (registry_is_a_map tool_name ScreenshotTool
              [("get_screenshot", ListDevicesTool)] "get_screenshot")
    as (G & _).
  destruct (registry_is_a_map tool_name ScreenshotTool
              [("list_devices", ListDevicesTool)] "list_devices")
    as (_ & O & _ & N & _).
  split; [exact G|]. split.
  - apply O. discriminate.
  - apply N. apply NoDup_singleton.
Defined.

Lemma CallTool_dispatch_witness :
  CallTool (H:=Fixture.host) (P:=Fixture.presentation) toolRegistry "tap"
    Undefined []
  = (Throw (Error "Tool not found: tap"), []) /\
  CallTool (H:=Fixture.host) (P:=Fixture.presentation) toolRegistry
    "list_devices" Undefined []
  = Tool_execute (H:=Fixture.host) (P:=Fixture.presentation) ListDevicesTool
      (Obj []) [].
Proof.
  destruct (CallTool_dispatch (H:=Fixture.host) (P:=Fixture.presentation)
              toolRegistry "tap" Undefined []) as (N & _ & _).
  destruct (CallTool_dispatch (H:=Fixture.host) (P:=Fixture.presentation)
              toolRegistry "list_devices" Undefined []) as (_ & S & _).
  split.
  - apply N. reflexivity.
  - exact (proj1 (S ListDevicesTool eq_refl)).
Defined.

Lemma tools_answer_without_a_simulator_witness :
  exists context,
    Tool_execute (H:=IdleFixture.host) (P:=IdleFixture.presentation) TapTool
      Undefined []
    = (Ok {| content :=
               [TextPart (context +:+ ": No iOS Simulator is currently running")];
             isError := Some true |},
       [] ++ [probe_call]).
Proof.
  apply (tools_answer_without_a_simulator (H:=IdleFixture.host)
           (P:=IdleFixture.presentation) TapTool Undefined []).
  - discriminate.
  - reflexivity.
Defined.

Lemma displayText_is_bounded_witness :
  displayText (H:=Fixture.host) (Str "hello") = Ok "hello".
Proof.
  destruct (displayText_is_bounded (H:=Fixture.host) "hello")
    as (t & E & _ & S & _).
  rewrite E. f_equal. apply S. vm_compute. discriminate.
Defined.

Lemma ScreenshotTool_captures_witness :
  ScreenshotTool_execute (H:=Fixture.host) Undefined []
  = (Ok {| content :=
             [ImagePart "" "image/png";
              TextPart "Here is the current screen of the iOS Simulator."];
           isError := None |},
     [] ++ [probe_call; screenshot_call]).
Proof.
  exact (proj1 (ScreenshotTool_captures (H:=Fixture.host) Undefined [] eq_refl)
           eq_refl).
Defined.
